(** * ATC figure scripts: the numeric core

    The repository is a set of plotting scripts.  Their numeric content is
    four closed-form functions

      - [f]                      (atc_plots_kernel.py, atc_plots.py)
      - the sombrero potential   (sombrero_potential.py, sombrero_sonnet.py)
      - [delta_function]         (delta_function.py)
      - [calculate_time_to_snr]  (conventional_readout.py)

    and one curve fit (plot_T1_decay_80K_2L.py).  Beside them stand the
    surface and contour arrays of accessible_B.py, the cutoff of
    sombrero_sonnet.py, and the one function on integers,
    [double_gif_speed] (double_playback.py).

    The scripts compute on NumPy float64 values.  Each function is written
    once, over an abstract number type, and instantiated twice:

      - at [R], the idealised reading in which the algebraic and analytic
        statements about the formulas are made (rounding is not part of
        it);
      - at the primitive binary64 floats, where signed zeros, infinities and
        NaN exist and the behaviour at zero contrast or zero count rate can
        be evaluated. *)

From Stdlib Require Import Floats String.
From Stdlib Require Import ZArith List Bool Permutation Reals Lra Psatz.
Import ListNotations.


(** ** Number types *)

(** The operations IEEE 754 requires, as the scripts use them. *)
Class Arith (F : Type) : Type := {
  add   : F -> F -> F;
  sub   : F -> F -> F;
  mul   : F -> F -> F;
  div   : F -> F -> F;
  neg   : F -> F;
  sqrt_ : F -> F;                 (* np.sqrt *)
  max_  : F -> F -> F;            (* one step of ndarray.max *)
  min_  : F -> F -> F;            (* one step of ndarray.min *)
  lit   : Z -> F                  (* an integer literal, or a float literal
                                     with an integral value               *)
}.

(** What NumPy takes from the C library. *)
Class Transcendental (F : Type) : Type := {
  exp_   : F -> F;                (* np.exp *)
  log_   : F -> F;                (* np.log *)
  power_ : F -> F -> F            (* x ** y with a float exponent *)
}.

Declare Scope num_scope.
Delimit Scope num_scope with num.
Infix "+" := add : num_scope.
Infix "-" := sub : num_scope.
Infix "*" := mul : num_scope.
Infix "/" := div : num_scope.
Notation "- x" := (neg x) : num_scope.

(** [x ** n] for a literal exponent [n], by repeated multiplication.  Over
    the reals this is the power; at binary64 it agrees with NumPy's power
    on zeros, infinities and NaN, and to the last bit or so elsewhere. *)
Fixpoint ipow {F} {arith : Arith F} (x : F) (n : nat) : F :=
  match n with
  | O => lit 1
  | S O => x
  | S m => mul x (ipow x m)
  end.
Infix "**" := ipow (at level 30, right associativity) : num_scope.

(** A decimal literal [n / d], such as 0.5 or 1e-6.  Division is correctly
    rounded, so at binary64 this is the double nearest to the decimal
    whenever [n] and [d] are below 2^53, which is how Python reads it. *)
Definition dec {F} {arith : Arith F} (n : Z) (d : positive) : F :=
  div (lit n) (lit (Zpos d)).

(** *** The idealised instance *)

(** The reals stand in for float64 without rounding, overflow, underflow
    or NaN; [sqrt] of a negative number is 0 and [x / 0] is some real, where
    the code gives NaN or an infinity.  What is proved at this instance is
    a statement over the reals, and is said to be one. *)

(** [x ** y] over the reals, for a base that is not negative: a zero base
    gives 0 for a positive exponent and 1 for a zero exponent.  For a
    negative base the value is not NumPy's. *)
Definition Rpower_np (x y : R) : R :=
  if Req_dec_T x 0
  then (if Req_dec_T y 0 then 1%R else 0%R)
  else Rpower x y.

#[export] Instance Arith_R : Arith R := {|
  add := Rplus; sub := Rminus; mul := Rmult; div := Rdiv; neg := Ropp;
  sqrt_ := R_sqrt.sqrt; max_ := Rmax; min_ := Rmin; lit := IZR
|}.

#[export] Instance Transcendental_R : Transcendental R := {|
  exp_ := exp; log_ := ln; power_ := Rpower_np
|}.

(** *** The binary64 instance *)

(** One step of [ndarray.max]: a NaN operand wins, otherwise the larger;
    of two equal values (the zeros of either sign) the later one is
    kept. *)
Definition fmax (x y : float) : float :=
  if PrimFloat.is_nan x then x
  else if PrimFloat.is_nan y then y
  else if PrimFloat.ltb y x then x else y.

Definition fmin (x y : float) : float :=
  if PrimFloat.is_nan x then x
  else if PrimFloat.is_nan y then y
  else if PrimFloat.ltb x y then x else y.

(** An integer literal as a float; the scripts' literals are small. *)
Definition float_of_Z (z : Z) : float :=
  match z with
  | Z0 => PrimFloat.zero
  | Zpos _ => PrimFloat.of_uint63 (Uint63.of_Z z)
  | Zneg p => PrimFloat.opp (PrimFloat.of_uint63 (Uint63.of_Z (Zpos p)))
  end.

#[export] Instance Arith_binary64 : Arith float := {|
  add := PrimFloat.add; sub := PrimFloat.sub; mul := PrimFloat.mul;
  div := PrimFloat.div; neg := PrimFloat.opp;
  sqrt_ := PrimFloat.sqrt; max_ := fmax; min_ := fmin;
  lit := float_of_Z
|}.

(** [exp], [log] and [pow] are not basic IEEE operations: NumPy calls the
    platform's C library.  The binary64 instance takes them as given. *)
Record libm : Type := {
  libm_exp : float -> float;
  libm_log : float -> float;
  libm_pow : float -> float -> float
}.

Definition Transcendental_binary64 (m : libm) : Transcendental float := {|
  exp_ := libm_exp m; log_ := libm_log m; power_ := libm_pow m
|}.

(** The special values, read off the IEEE representation. *)
Definition is_zero64 (x : float) : bool :=
  match Prim2SF x with S754_zero _ => true | _ => false end.

Definition is_finite64 (x : float) : bool :=
  match Prim2SF x with
  | S754_zero _ | S754_finite _ _ _ => true
  | S754_infinity _ | S754_nan => false
  end.

(** Two classes of IEEE values: a zero or a NaN, and an infinity or a
    NaN. *)
Definition zero_or_nan (s : spec_float) : bool :=
  match s with S754_zero _ | S754_nan => true | _ => false end.

Definition inf_or_nan (s : spec_float) : bool :=
  match s with S754_infinity _ | S754_nan => true | _ => false end.

(** ** Outcome of a Python call *)

Inductive py_exception : Type :=
| ValueError (msg : string)
| RuntimeError (msg : string)
| TypeError (msg : string)
| ArrayIndexError (msg : string).  (* IndexError, from indexing an ndarray *)

Inductive py_result (A : Type) : Type :=
| Returned (a : A)
| Raised (e : py_exception).
Arguments Returned {A} a.
Arguments Raised {A} e.

(** ** conventional_readout.py *)

Section ConventionalReadout.
Context {F : Type} {arith : Arith F}.
Local Open Scope num_scope.

Record AcquisitionParams : Type := {
  photon_count_rate : F;    (* photons/second *)
  readout_time : F;         (* seconds *)
  contrast : F              (* signal visibility (0-1) *)
}.

Definition photons_per_readout (self : AcquisitionParams) : F :=
  photon_count_rate self * readout_time self.

Definition calculate_time_to_snr
    (params : AcquisitionParams) (evolution_time target_snr : F) : F :=
  let photons := photons_per_readout params in
  let snr_per_readout :=
    contrast params * sqrt_ photons * lit 1 / sqrt_ (lit 2) in
  let n_readouts := (target_snr / snr_per_readout) ** 2 in
  let acquisition_time := n_readouts * readout_time params in
  let total_time := evolution_time * n_readouts + acquisition_time in
  total_time.
End ConventionalReadout.

Arguments AcquisitionParams F : clear implicits.

(** The call as Python sees it.  The body has no [raise], and NumPy's
    float64 arithmetic reports a division by zero or an invalid operand by a
    warning (its default error state), so the call returns whatever the
    arithmetic produced. *)
Definition call_calculate_time_to_snr
    (params : AcquisitionParams float) (evolution_time target_snr : float)
  : py_result float :=
  Returned (calculate_time_to_snr params evolution_time target_snr).

(** The specification's formula for the same quantity, over the reals. *)
Definition timeToTargetSNR_spec
    (params : AcquisitionParams R) (evolutionTime targetSNR : R) : R :=
  let photons := (photon_count_rate params * readout_time params)%R in
  let snrPerReadout := (contrast params * sqrt photons / sqrt 2)%R in
  let requiredReadouts := ((targetSNR / snrPerReadout) ^ 2)%R in
  (requiredReadouts * (evolutionTime + readout_time params))%R.

(** The same formula at any number type. *)
Definition timeToTargetSNR_formula {F} {arith : Arith F}
    (params : AcquisitionParams F) (evolutionTime targetSNR : F) : F :=
  let photons := mul (photon_count_rate params) (readout_time params) in
  let snrPerReadout :=
    div (mul (contrast params) (sqrt_ photons)) (sqrt_ (lit 2)) in
  let requiredReadouts := ipow (div targetSNR snrPerReadout) 2 in
  mul requiredReadouts (add evolutionTime (readout_time params)).

(** ** delta_function.py, atc_plots_kernel.py, the sombrero scripts *)

Section ClosedForms.
Context {F : Type} {arith : Arith F} {trans : Transcendental F}.
Local Open Scope num_scope.

(** delta_function.py; [amplitude] defaults to 1.0. *)
Definition delta_function (x center width amplitude : F) : F :=
  let sigma := width / (lit 2 * sqrt_ (lit 2 * log_ (lit 2))) in
  amplitude * exp_ (- ((x - center) ** 2) / (lit 2 * sigma ** 2)).

Definition delta_function_default (x center width : F) : F :=
  delta_function x center width (lit 1).

(** atc_plots_kernel.py and atc_plots.py, the same two lines. *)
Definition f (q d : F) : F :=
  q ** 3 * exp_ (- (lit 2) * q * d).

(** sombrero_potential.py, one grid point of one frame. *)
Definition mu_of_frame (frame n_frames : Z) : F :=
  lit 2 - (lit frame / lit n_frames) * dec 25 10.

Definition sombrero_potential_Z (mu X Y : F) : F :=
  let r_squared := X ** 2 + Y ** 2 in
  mu * r_squared + r_squared ** 2.

(** sombrero_sonnet.py, [update], one grid point. *)
Definition sombrero_sonnet_V (mu_sq X Y : F) : F :=
  let r_squared := X ** 2 + Y ** 2 in
  let lambda_param := dec 5 10 in
  - mu_sq * r_squared + lambda_param * r_squared ** 2.

(** plot_T1_decay_80K_2L.py *)
Definition stretched_exp (t A tau gamma : F) : F :=
  A * exp_ (- (power_ (t / tau) gamma)).
End ClosedForms.

(** The specification's two-parameter potential, of which the scripts draw
    the cases lambda = 1 and (mu, lambda) = (- mu_sq, 0.5). *)
Definition sombreroPotential (x y mu lambda : R) : R :=
  let r2 := (x ^ 2 + y ^ 2)%R in
  (mu * r2 + lambda * r2 ^ 2)%R.

(** The specification's maximiser of [f] in [q]. *)
Definition q_star (d : R) : R := (3 / (2 * d))%R.

(** ** plot_T1_decay_80K_2L.py: the fit *)

Definition bind {A B} (r : py_result A) (k : A -> py_result B) : py_result B :=
  match r with
  | Returned a => k a
  | Raised e => Raised e
  end.

Notation "x <- c1 ;; c2" := (bind c1 (fun x => c2))
  (at level 61, c1 at next level, right associativity).

Section Fit.
Context {F : Type} {arith : Arith F} {trans : Transcendental F}.
Local Open Scope num_scope.

(** [a.max()] and [a.min()]: a reduction that has no identity, so an
    empty array raises ValueError. *)
Definition ndarray_max (a : list F) : py_result F :=
  match a with
  | [] => Raised (ValueError "zero-size array to reduction operation"%string)
  | x :: rest => Returned (fold_left max_ rest x)
  end.

Definition ndarray_min (a : list F) : py_result F :=
  match a with
  | [] => Raised (ValueError "zero-size array to reduction operation"%string)
  | x :: rest => Returned (fold_left min_ rest x)
  end.

(** [np.diag] of a two-dimensional array. *)
Fixpoint diag_from (i : nat) (m : list (list F)) : list F :=
  match m with
  | [] => []
  | row :: rest =>
      match nth_error row i with
      | Some x => x :: diag_from (S i) rest
      | None => []
      end
  end.

Definition np_diag (m : list (list F)) : list F := diag_from 0 m.

(** The rows of the CSV file: time (ms), signal, error. *)
Definition SampleSeries : Type := list (F * F * F).

Definition column_time_ms (data : SampleSeries) : list F :=
  map (fun row => fst (fst row)) data.
Definition column_signal (data : SampleSeries) : list F :=
  map (fun row => snd (fst row)) data.
Definition column_error (data : SampleSeries) : list F :=
  map (fun row => snd row) data.

Definition to_time_us (time_ms : list F) : list F :=
  map (fun t => t * lit 1000) time_ms.

Record FitResult : Type := {
  A_fit : F;
  tau_fit : F;
  gamma_fit : F;
  perr : list F
}.

(** [scipy.optimize.curve_fit(f, xdata, ydata, sigma, p0, absolute_sigma,
    maxfev)]: it returns [(popt, pcov)] or raises. *)
Definition curve_fit_t : Type :=
  (F -> F -> F -> F -> F) -> list F -> list F -> list F -> list F ->
  bool -> Z -> py_result (list F * list (list F)).

Variable curve_fit : curve_fit_t.

Definition initial_guess (time_us signal : list F) : py_result (list F) :=
  A0 <- ndarray_max signal ;;
  t_max <- ndarray_max time_us ;;
  t_min <- ndarray_min time_us ;;
  let tau0 := (t_max - t_min) / lit 2 in
  let gamma0 := lit 1 in
  Returned [A0; tau0; gamma0].

(** What the script does with the answer of [curve_fit]: unpack the three
    parameters, take the square roots of the covariance diagonal. *)
Definition unpack_fit (r : list F * list (list F)) : py_result FitResult :=
  let (popt, pcov) := r in
  match popt with
  | [A; tau; gamma] =>
      Returned {| A_fit := A; tau_fit := tau; gamma_fit := gamma;
                  perr := map sqrt_ (np_diag pcov) |}
  | _ => Raised (ValueError "wrong number of values to unpack"%string)
  end.

(** Lines 31 to 40, on the converted times. *)
Definition fit_stretched_exp (time_us signal error : list F)
  : py_result FitResult :=
  p0 <- initial_guess time_us signal ;;
  r <- curve_fit stretched_exp time_us signal error p0 true 10000%Z ;;
  unpack_fit r.

(** Lines 24 to 40, from the rows of the file.  For a file with no row or
    one row [np.loadtxt] gives a one-dimensional array, and [data[:, 0]]
    (line 26) raises IndexError before anything is computed. *)
Definition fit_T1 (data : SampleSeries) : py_result FitResult :=
  match data with
  | [] | [_] =>
      Raised (ArrayIndexError "too many indices for array"%string)
  | _ =>
      let time_us := to_time_us (column_time_ms data) in
      fit_stretched_exp time_us (column_signal data) (column_error data)
  end.
End Fit.

Arguments SampleSeries F : clear implicits.
Arguments FitResult F : clear implicits.
Arguments curve_fit_t F : clear implicits.

(** When the answer of [curve_fit] is a failed fit: it raised (the budget
    of [maxfev] evaluations ran out), or the covariance it returned has a
    diagonal entry that is not a positive finite number (singular or not
    positive definite). *)
Definition covariance_estimated (pcov : list (list float)) : bool :=
  forallb (fun d => is_finite64 d && PrimFloat.ltb PrimFloat.zero d)
          (np_diag pcov).

Definition fit_failed (r : py_result (list float * list (list float)))
  : bool :=
  match r with
  | Raised _ => true
  | Returned (_, pcov) => negb (covariance_estimated pcov)
  end.

(** ** Concrete inputs used below *)

(** The first system of conventional_readout.py with its contrast set to
    zero, and with the signs of its rate and readout time flipped. *)
Definition zero_contrast_params : AcquisitionParams float :=
  {| photon_count_rate := lit 50000; readout_time := dec 1 1000000;
     contrast := lit 0 |}.

Definition negative_rate_params : AcquisitionParams float :=
  {| photon_count_rate := lit (-50000); readout_time := dec (-1) 1000000;
     contrast := dec 30 100 |}.

(** The doubles written 1e-200, 1e308 and 1e-312 in Python, and the double
    nearest to ln 2. *)
Definition double_1e_200 : float := 0x1.87e92154ef7acp-665%float.
Definition double_1e308 : float := 0x1.1ccf385ebc8ap+1023%float.
Definition double_1e_312 : float := 0x0.0002f201d49fbp-1022%float.
Definition ln2_binary64 : float := 0x1.62e42fefa39efp-1%float.

(** The first system of conventional_readout.py, at a given contrast and
    readout time, evaluated at evolution time 0 and target 5. *)
Definition first_system (c : float) : AcquisitionParams float :=
  {| photon_count_rate := lit 50000; readout_time := dec 1 1000000;
     contrast := c |}.

(** The second of the script's 100 evolution times,
    [np.linspace(0, 1e-1, 100)[1]]. *)
Definition evolution_time_1 : float :=
  PrimFloat.add (PrimFloat.mul (lit 1) (PrimFloat.div (dec 1 10) (lit 99)))
                (lit 0).

(** A C library without transcendental functions: every call answers NaN.
    It serves where the fit is evaluated on concrete data; the script hands
    the model function to [curve_fit] and never calls it itself. *)
Definition libm_nan : libm :=
  {| libm_exp := fun _ => PrimFloat.nan;
     libm_log := fun _ => PrimFloat.nan;
     libm_pow := fun _ _ => PrimFloat.nan |}.

(** What [curve_fit] answers when the Jacobian at the solution is rank
    deficient: the estimate, and a covariance filled with inf (SciPy adds an
    OptimizeWarning, which is not an exception). *)
Definition inf_covariance : list (list float) :=
  let row := [PrimFloat.infinity; PrimFloat.infinity; PrimFloat.infinity] in
  [row; row; row].

Definition rank_deficient_curve_fit : curve_fit_t float :=
  fun _ _ _ _ p0 _ _ => Returned (p0, inf_covariance).

(** Three rows with a signal that is identically zero: at amplitude 0 the
    model does not depend on tau or gamma. *)
Definition flat_series : SampleSeries float :=
  [ (lit 0, lit 0, lit 1); (lit 1, lit 0, lit 1); (lit 2, lit 0, lit 1) ].

(** A [curve_fit] that does not converge within [maxfev] evaluations. *)
Definition diverging_curve_fit : curve_fit_t float :=
  fun _ _ _ _ _ _ _ =>
    Raised (RuntimeError "Optimal parameters not found"%string).

(** Over the reals: three rows of a decay, and a [curve_fit] that answers
    its initial guess with a unit covariance. *)
Definition decay_series : SampleSeries R :=
  [ (1, 2, 1 / 10); (2, 1, 1 / 10); (3, 1 / 2, 1 / 10) ]%R.

Definition unit_curve_fit : curve_fit_t R :=
  fun _ _ _ _ p0 _ _ =>
    Returned (p0, [ [1; 0; 0]; [0; 1; 0]; [0; 0; 1] ]%R).

(** ** More binary64 classes *)

Definition is_nan64 (x : float) : bool :=
  match Prim2SF x with S754_nan => true | _ => false end.

(** The sign bit of a value that is not a NaN. *)
Definition is_negative64 (x : float) : bool :=
  match Prim2SF x with
  | S754_zero s | S754_infinity s | S754_finite s _ _ => s
  | S754_nan => false
  end.

Definition is_positive64 (x : float) : bool :=
  match Prim2SF x with
  | S754_zero s | S754_infinity s | S754_finite s _ _ => negb s
  | S754_nan => false
  end.

Definition neg_or_nan (s : spec_float) : bool :=
  match s with
  | S754_zero b | S754_infinity b | S754_finite b _ _ => b
  | S754_nan => true
  end.

(** ** sombrero_sonnet.py: the cutoff of [update] *)

(** One grid point after the smooth cutoff: [V * smooth_mask], or NaN
    ([None]) where the mask is below 0.01. *)
Definition smooth_mask (V : R) : R :=
  let cutoff_height := 3%R in
  let smoothness := (5 / 10)%R in
  (1 / (1 + exp ((V - cutoff_height) / smoothness)))%R.

Definition V_masked (V : R) : option R :=
  if Rlt_dec (smooth_mask V) (1 / 100)
  then None
  else Some (V * smooth_mask V)%R.

Definition update_point (mu_sq X Y : R) : option R :=
  V_masked (sombrero_sonnet_V mu_sq X Y).

(** ** accessible_B.py *)

(** [np.radians]. *)
Definition radians (deg : R) : R := (deg * PI / 180)%R.

(** Entry (i, j) of the surface arrays [x], [y], [z], at [u = u_i] and
    [v = v_j]; [a], [b], [c] are the semi-axes. *)
Definition surface_point (a b c u v : R) : R * R * R :=
  ((a * (cos u * sin v))%R,
   (b * (sin u * sin v))%R,
   (c * (1 * cos v))%R).

(** Entry [i] of [x_contour], [y_contour], [z_contour_pos], and of
    [z_contour_neg]. *)
Definition contour_point (scale_factor a b c theta u : R) : R * R * R :=
  ((scale_factor * a * cos u * sin theta)%R,
   (scale_factor * b * sin u * sin theta)%R,
   (scale_factor * c * cos theta * 1)%R).

Definition contour_point_neg (scale_factor a b c theta u : R) : R * R * R :=
  let '(x, y, z) := contour_point scale_factor a b c theta u in
  (x, y, (- z)%R).

(** ** plot_T1_decay_80K_2L.py: the legend *)

Definition SHOW_PARAMS_DEFAULT : bool := false.

Definition show_params (hide_params : bool) : bool :=
  SHOW_PARAMS_DEFAULT && negb hide_params.

Definition newline : string := String (Ascii.ascii_of_nat 10) EmptyString.

Definition fit_label (eq_legend params_legend : string) (hide_params : bool)
  : string :=
  if negb (show_params hide_params)
  then eq_legend
  else (eq_legend ++ newline ++ params_legend)%string.

(** ** double_playback.py *)

Section DoublePlayback.
(** The pixels of a frame; the script copies them and never looks inside. *)
Variable Img : Type.

Record gif_frame : Type := {
  pixels : Img;
  info : list (string * Z)       (* frame.info, a dict *)
}.

(** [d.get(key, default)]. *)
Fixpoint dict_get (key : string) (default : Z) (d : list (string * Z)) : Z :=
  match d with
  | [] => default
  | (k, v) :: rest =>
      if String.eqb k key then v else dict_get key default rest
  end.

(** Lines 15 and 16: the halved duration of one frame. *)
Definition halved_duration (frame : gif_frame) : Z :=
  let frame_duration := dict_get "duration" 100 (info frame) in
  Z.max 1 (frame_duration / 2).

(** The arguments of [frames[0].save(...)]. *)
Record save_call : Type := {
  saved_first : gif_frame;
  save_all : bool;
  append_images : list gif_frame;
  duration : list Z;
  loop : Z;
  disposal : Z
}.

Inductive save_outcome : Type :=
| Saved (call : save_call)
| IndexError (msg : string).

(** [double_gif_speed], on the frames that [ImageSequence.Iterator]
    yields. *)
Definition double_gif_speed (original_gif : list gif_frame) : save_outcome :=
  let frames := map (fun frame => frame) original_gif in
  let durations := map halved_duration original_gif in
  match frames with
  | [] => IndexError "list index out of range"
  | first :: rest =>
      Saved {| saved_first := first; save_all := true;
               append_images := rest; duration := durations;
               loop := 0; disposal := 2 |}
  end.
End DoublePlayback.

Arguments pixels {Img} g.
Arguments info {Img} g.
Arguments halved_duration {Img} frame.
Arguments saved_first {Img} s.
Arguments save_all {Img} s.
Arguments append_images {Img} s.
Arguments duration {Img} s.
Arguments loop {Img} s.
Arguments disposal {Img} s.
Arguments Saved {Img} call.
Arguments IndexError {Img} msg.
Arguments double_gif_speed {Img} original_gif.

(** The duration the script reads off a frame, and the playing time of one
    loop of a list of durations, in milliseconds. *)
Definition frame_duration {Img} (frame : gif_frame Img) : Z :=
  dict_get "duration" 100 (info frame).

Definition playing_time (durations : list Z) : Z :=
  fold_right Z.add 0%Z durations.

(** * Theorems *)

(** ** The idealised reading: conventional_readout.py *)

Section ReadoutOverR.
Local Open Scope R_scope.

Lemma ipow_R (x : R) (n : nat) : ipow x n = x ^ n.
Proof.
  induction n as [| [| m] IH]; cbn in *.
  - reflexivity.
  - ring.
  - rewrite IH. reflexivity.
Qed.

Lemma sqrt_2_sq : sqrt 2 * sqrt 2 = 2.
Proof. apply sqrt_sqrt. lra. Qed.

Lemma sqrt_2_pos : 0 < sqrt 2.
Proof. apply sqrt_lt_R0. lra. Qed.

(** The value in closed form: the square roots cancel against the
    square. *)
Lemma calculate_time_to_snr_closed (rate ro c evo snr : R) :
  0 < rate -> 0 < ro -> c <> 0 ->
  calculate_time_to_snr
    {| photon_count_rate := rate; readout_time := ro; contrast := c |}
    evo snr
  = 2 * snr ^ 2 * (evo + ro) / (c ^ 2 * (rate * ro)).
Proof.
  intros Hrate Hro Hc.
  unfold calculate_time_to_snr, photons_per_readout. cbn.
  assert (Hp : 0 < rate * ro) by nra.
  pose proof (sqrt_sqrt (rate * ro) (Rlt_le _ _ Hp)) as Hs.
  pose proof (sqrt_lt_R0 _ Hp) as Hs0.
  pose proof sqrt_2_sq as Ht.
  pose proof sqrt_2_pos as Ht0.
  set (s := sqrt (rate * ro)) in *.
  set (t := sqrt 2) in *.
  clearbody s t.
  rewrite <- Hs, <- Ht.
  field. repeat split; lra.
Qed.
End ReadoutOverR.

Local Open Scope R_scope.

(** C1 (as amended). Over the reals: with a positive count rate, a positive
    readout time, a contrast in (0,1], a non-negative evolution time and a
    positive target SNR, the expression of [calculate_time_to_snr] has the
    specification's value: photons =
    rate * readout time, SNR per readout = contrast * sqrt photons / sqrt 2
    (positive, so the division is defined), readouts = (target / SNR per
    readout)^2, total = readouts * (evolution time + readout time). *)
Theorem calculate_time_to_snr_formula :
  forall (params : AcquisitionParams R) (evolution_time target_snr : R),
    0 < photon_count_rate params ->
    0 < readout_time params ->
    0 < contrast params <= 1 ->
    0 <= evolution_time ->
    0 < target_snr ->
    photons_per_readout params
      = photon_count_rate params * readout_time params /\
    0 < contrast params
        * sqrt (photon_count_rate params * readout_time params) / sqrt 2 /\
    calculate_time_to_snr params evolution_time target_snr
      = timeToTargetSNR_spec params evolution_time target_snr /\
    calculate_time_to_snr params evolution_time target_snr
      = (target_snr
          / (contrast params
              * sqrt (photon_count_rate params * readout_time params)
              / sqrt 2)) ^ 2
        * (evolution_time + readout_time params).
Proof.
  intros [rate ro c] evo snr Hrate Hro Hc Hevo Hsnr.
  unfold calculate_time_to_snr, timeToTargetSNR_spec, photons_per_readout.
  cbn in *.
  split; [reflexivity |].
  split.
  - apply Rdiv_lt_0_compat; [| apply sqrt_2_pos].
    apply Rmult_lt_0_compat; [lra |].
    apply sqrt_lt_R0. nra.
  - split; rewrite Rmult_1_r; ring.
Qed.

Lemma calculate_time_to_snr_formula_witness :
  calculate_time_to_snr
    {| photon_count_rate := 50000; readout_time := 1 / 1000000;
       contrast := 3 / 10 |} (1 / 10) 5
  = timeToTargetSNR_spec
      {| photon_count_rate := 50000; readout_time := 1 / 1000000;
         contrast := 3 / 10 |} (1 / 10) 5.
Proof.
  refine (proj1 (proj2 (proj2
    (calculate_time_to_snr_formula
       {| photon_count_rate := 50000; readout_time := 1 / 1000000;
          contrast := 3 / 10 |} (1 / 10) 5 _ _ _ _ _)))); cbn; lra.
Defined.

(** C7 (as amended). Over the reals: with the count rate, readout time,
    evolution time and target SNR fixed (positive, positive, non-negative,
    positive), the total time is positive at every contrast in (0,1] and
    strictly smaller at the larger of two contrasts. *)
Theorem calculate_time_to_snr_decreasing_in_contrast :
  forall (rate ro evo snr c1 c2 : R),
    0 < rate -> 0 < ro -> 0 <= evo -> 0 < snr ->
    0 < c1 -> c1 < c2 -> c2 <= 1 ->
    let T c :=
      calculate_time_to_snr
        {| photon_count_rate := rate; readout_time := ro; contrast := c |}
        evo snr in
    0 < T c1 /\ 0 < T c2 /\ T c2 < T c1.
Proof.
  intros rate ro evo snr c1 c2 Hrate Hro Hevo Hsnr Hc1 Hlt Hc2 T.
  unfold T.
  rewrite !calculate_time_to_snr_closed by lra.
  assert (Hp : 0 < rate * ro) by nra.
  assert (HK : 0 < 2 * snr ^ 2 * (evo + ro)).
  { apply Rmult_lt_0_compat; [| lra].
    apply Rmult_lt_0_compat; [lra |]. apply pow_lt; lra. }
  assert (H1 : 0 < c1 ^ 2 * (rate * ro)).
  { apply Rmult_lt_0_compat; [apply pow_lt |]; lra. }
  assert (H2 : 0 < c2 ^ 2 * (rate * ro)).
  { apply Rmult_lt_0_compat; [apply pow_lt; lra | lra]. }
  assert (H12 : c1 ^ 2 * (rate * ro) < c2 ^ 2 * (rate * ro)).
  { apply Rmult_lt_compat_r; [lra |]. nra. }
  repeat split.
  - apply Rdiv_lt_0_compat; assumption.
  - apply Rdiv_lt_0_compat; assumption.
  - unfold Rdiv. apply Rmult_lt_compat_l; [assumption |].
    apply Rinv_lt_contravar; [nra | assumption].
Qed.

Lemma calculate_time_to_snr_decreasing_in_contrast_witness :
  calculate_time_to_snr
    {| photon_count_rate := 50000; readout_time := 1 / 1000000;
       contrast := 3 / 10 |} 0 5
  < calculate_time_to_snr
      {| photon_count_rate := 50000; readout_time := 1 / 1000000;
         contrast := 8 / 100 |} 0 5.
Proof.
  apply (calculate_time_to_snr_decreasing_in_contrast
           50000 (1 / 1000000) 0 5 (8 / 100) (3 / 10)); lra.
Defined.

(** C10 (as amended). Over the reals: at evolution time 0 the result does
    not depend on the readout time: for a positive count rate and a
    positive contrast it is 2 * target^2 / (contrast^2 * rate) at every
    positive readout time. *)
Theorem calculate_time_to_snr_zero_evolution :
  forall (rate c snr ro : R),
    0 < rate -> 0 < c -> 0 < ro ->
    calculate_time_to_snr
      {| photon_count_rate := rate; readout_time := ro; contrast := c |}
      0 snr
    = 2 * snr ^ 2 / (c ^ 2 * rate).
Proof.
  intros rate c snr ro Hrate Hc Hro.
  rewrite calculate_time_to_snr_closed by lra.
  field. repeat split; lra.
Qed.

Lemma calculate_time_to_snr_zero_evolution_witness :
  calculate_time_to_snr
    {| photon_count_rate := 50000; readout_time := 1 / 1000000;
       contrast := 3 / 10 |} 0 5
  = calculate_time_to_snr
      {| photon_count_rate := 50000; readout_time := 7;
         contrast := 3 / 10 |} 0 5.
Proof.
  rewrite (calculate_time_to_snr_zero_evolution 50000 (3 / 10) 5 (1 / 1000000))
    by lra.
  rewrite (calculate_time_to_snr_zero_evolution 50000 (3 / 10) 5 7) by lra.
  reflexivity.
Defined.

(** ** The idealised reading: delta_function.py *)

Lemma ln_2_pos : 0 < ln 2.
Proof. rewrite <- ln_1. apply ln_increasing; lra. Qed.

Lemma exp_minus_ln_2 : exp (- ln 2) = / 2.
Proof. rewrite exp_Ropp, exp_ln by lra. reflexivity. Qed.

(** The FWHM conversion constant squares to 2 ln 2. *)
Lemma fwhm_constant_sq : sqrt (2 * ln 2) * sqrt (2 * ln 2) = 2 * ln 2.
Proof. apply sqrt_sqrt. pose proof ln_2_pos. lra. Qed.

Lemma fwhm_constant_pos : 0 < sqrt (2 * ln 2).
Proof. apply sqrt_lt_R0. pose proof ln_2_pos. lra. Qed.

(** Half a width away from the centre the exponent is - ln 2. *)
Lemma delta_function_half_width (center width amplitude h : R) :
  0 < width -> h * h = width * width / 4 ->
  delta_function (center + h) center width amplitude = amplitude / 2.
Proof.
  intros Hw Hh.
  unfold delta_function. cbn.
  pose proof fwhm_constant_sq as Hk.
  pose proof fwhm_constant_pos as Hk0.
  set (k := sqrt (2 * ln 2)) in *. clearbody k.
  replace (- ((center + h - center) * (center + h - center))
           / (2 * (width / (2 * k) * (width / (2 * k)))))
    with (- ln 2).
  - rewrite exp_minus_ln_2. reflexivity.
  - replace ((center + h - center) * (center + h - center))
      with (width * width / 4) by (rewrite <- Hh; ring).
    replace (ln 2) with (k * k / 2) by lra.
    field. lra.
Qed.

(** C4 (as amended). Over the reals: for a positive width,
    [delta_function] is amplitude *
    exp (- (x - center)^2 / (2 sigma^2)) with sigma = width /
    (2 sqrt (2 ln 2)); its value at the centre is the amplitude, and its
    value half a width to either side of the centre is half the
    amplitude. *)
Theorem delta_function_fwhm :
  forall (center width amplitude : R),
    0 < width ->
    let sigma := width / (2 * sqrt (2 * ln 2)) in
    (forall x,
        delta_function x center width amplitude
        = amplitude * exp (- (x - center) ^ 2 / (2 * sigma ^ 2))) /\
    delta_function center center width amplitude = amplitude /\
    delta_function (center + width / 2) center width amplitude
      = amplitude / 2 /\
    delta_function (center - width / 2) center width amplitude
      = amplitude / 2.
Proof.
  intros center width amplitude Hw sigma.
  repeat split.
  - intro x. unfold delta_function, sigma. cbn.
    rewrite !Rmult_1_r. reflexivity.
  - unfold delta_function. cbn.
    replace (center - center) with 0 by ring.
    rewrite Rmult_0_l, Ropp_0.
    unfold Rdiv at 1. rewrite Rmult_0_l, exp_0. ring.
  - apply delta_function_half_width; [assumption | field].
  - replace (center - width / 2) with (center + - (width / 2)) by ring.
    apply delta_function_half_width; [assumption | field].
Qed.

Lemma delta_function_fwhm_witness :
  delta_function 1 1 (1 / 10) 1 = 1 /\
  delta_function (1 + 1 / 10 / 2) 1 (1 / 10) 1 = 1 / 2.
Proof.
  destruct (delta_function_fwhm 1 (1 / 10) 1) as (_ & Hpeak & Hhalf & _).
  - lra.
  - split; assumption.
Defined.

(** ** The idealised reading: the momentum kernel *)

Lemma f_closed (q d : R) : f q d = q ^ 3 * exp (- 2 * q * d).
Proof.
  unfold f. cbn. rewrite Rmult_1_r.
  replace (- (2) * q * d) with (- 2 * q * d) by ring.
  reflexivity.
Qed.

Lemma f_pos (q d : R) : 0 < q -> 0 < f q d.
Proof.
  intro Hq. rewrite f_closed.
  apply Rmult_lt_0_compat; [apply pow_lt; assumption | apply exp_pos].
Qed.

Lemma q_star_pos (d : R) : 0 < d -> 0 < q_star d.
Proof.
  intro Hd. unfold q_star. apply Rdiv_lt_0_compat; lra.
Qed.

(** The ratio of [f q d] to its value at [q_star d], in terms of the
    relative offset [x = q / q_star d - 1]. *)
Lemma f_ratio (d x : R) :
  0 < d ->
  f (q_star d * (1 + x)) d = f (q_star d) d * ((1 + x) * exp (- x)) ^ 3.
Proof.
  intro Hd. rewrite !f_closed.
  replace (- 2 * (q_star d * (1 + x)) * d) with (- 3 + (- x + (- x + - x)))
    by (unfold q_star; field; lra).
  replace (- 2 * q_star d * d) with (- 3) by (unfold q_star; field; lra).
  rewrite !exp_plus. ring.
Qed.

Lemma one_plus_exp_lt_1 (x : R) :
  x <> 0 -> -1 < x -> 0 < (1 + x) * exp (- x) < 1.
Proof.
  intros Hx Hx1.
  pose proof (exp_ineq1 x Hx) as Hexp.
  pose proof (exp_pos x) as Hpos.
  rewrite exp_Ropp.
  split.
  - apply Rmult_lt_0_compat; [lra | apply Rinv_0_lt_compat; assumption].
  - apply Rmult_lt_reg_r with (exp x); [assumption |].
    rewrite Rmult_assoc, Rinv_l by lra. lra.
Qed.

(** [q_star d] is the strict maximiser of [f] over the positive [q]. *)
Lemma f_strict_max (q d : R) :
  0 < q -> 0 < d -> q <> q_star d -> f q d < f (q_star d) d.
Proof.
  intros Hq Hd Hne.
  pose proof (q_star_pos d Hd) as Hs.
  set (x := q / q_star d - 1).
  assert (Hqx : q = q_star d * (1 + x)) by (unfold x; field; lra).
  assert (Hx0 : x <> 0).
  { intro E. apply Hne. rewrite Hqx, E. ring. }
  assert (Hx1 : -1 < x).
  { unfold x. assert (0 < q / q_star d) by (apply Rdiv_lt_0_compat; lra).
    lra. }
  rewrite Hqx, f_ratio by assumption.
  destruct (one_plus_exp_lt_1 x Hx0 Hx1) as [Hy0 Hy1].
  set (y := (1 + x) * exp (- x)) in *.
  pose proof (f_pos (q_star d) d Hs) as Hf.
  assert (Hy3 : y ^ 3 < 1) by (cbn; nra).
  nra.
Qed.

Lemma derivable_pt_lim_linear (a x : R) :
  derivable_pt_lim (fun z => a * z) x a.
Proof.
  pose proof (derivable_pt_lim_mult (fun _ => a) (fun z => z) x 0 1
                (derivable_pt_lim_const a x) (derivable_pt_lim_id x)) as D.
  cbv beta in D.
  replace (0 * x + a * 1) with a in D by ring.
  exact D.
Qed.

(** The derivative of [f] in [q]. *)
Lemma f_derivative (q d : R) :
  derivable_pt_lim (fun q' => f q' d) q
    (q ^ 2 * exp (- 2 * q * d) * (3 - 2 * q * d)).
Proof.
  apply derivable_pt_lim_ext
    with (f := mult_fct (fun q' => q' ^ 3)
                        (comp exp (fun q' => - 2 * d * q'))).
  - intro z. rewrite f_closed. unfold mult_fct, comp.
    replace (- 2 * d * z) with (- 2 * z * d) by ring. reflexivity.
  - replace (q ^ 2 * exp (- 2 * q * d) * (3 - 2 * q * d))
      with (INR 3 * q ^ pred 3 * comp exp (fun q' => - 2 * d * q') q
            + q ^ 3 * (exp (- 2 * d * q) * (- 2 * d))).
    + apply derivable_pt_lim_mult.
      * apply derivable_pt_lim_pow.
      * apply derivable_pt_lim_comp.
        -- apply derivable_pt_lim_linear.
        -- apply derivable_pt_lim_exp.
    + unfold comp. cbn.
      replace (- 2 * d * q) with (- 2 * q * d) by ring. ring.
Qed.

(** C5. For positive [q] and [d], [f q d] is q^3 exp (- 2 q d), a
    non-negative real; for a fixed positive [d] it has one maximum over the
    positive [q], at q* = 3 / (2 d): the value at any other positive [q] is
    strictly smaller, and q* is the only positive [q] at which the
    derivative in [q] is zero.  For d = 1, q* = 1.5. *)
Theorem f_kernel_maximum :
  forall (q d : R),
    0 < q -> 0 < d ->
    f q d = q ^ 3 * exp (- 2 * q * d) /\
    0 <= f q d /\
    0 < q_star d /\
    (q <> q_star d -> f q d < f (q_star d) d) /\
    (forall l, derivable_pt_lim (fun q' => f q' d) q l ->
               (l = 0 <-> q = q_star d)) /\
    q_star 1 = 15 / 10.
Proof.
  intros q d Hq Hd.
  split; [apply f_closed |].
  split; [left; apply f_pos; assumption |].
  split; [apply q_star_pos; assumption |].
  split; [intro Hne; apply f_strict_max; assumption |].
  split; [| unfold q_star; lra].
  intros l Hl.
  rewrite (uniqueness_limite _ _ _ _ Hl (f_derivative q d)).
  assert (Hfac : 0 < q ^ 2 * exp (- 2 * q * d)).
  { apply Rmult_lt_0_compat; [apply pow_lt; assumption | apply exp_pos]. }
  unfold q_star. split.
  - intro E. apply Rmult_integral in E. destruct E as [E | E]; [lra |].
    apply Rmult_eq_reg_r with (2 * d); [| lra].
    field_simplify; lra.
  - intro E. rewrite E.
    replace (3 - 2 * (3 / (2 * d)) * d) with 0 by (field; lra).
    ring.
Qed.

Lemma f_kernel_maximum_witness :
  f 1 1 < f (q_star 1) 1 /\ q_star 1 = 15 / 10.
Proof.
  assert (H1 : 0 < 1) by lra.
  destruct (f_kernel_maximum 1 1 H1 H1) as (_ & _ & _ & Hmax & _ & Hq).
  split; [| exact Hq].
  apply Hmax. unfold q_star. lra.
Defined.

(** The ridge search of the scripts, [fminbound] over [0.5, 8] for [d] in
    [0.5, 1.5], has the maximiser strictly inside its bounds. *)
Lemma q_star_in_search_interval (d : R) :
  1 / 2 <= d <= 3 / 2 -> 1 / 2 < q_star d < 8.
Proof.
  intros [Hlo Hhi].
  assert (Hprod : q_star d * (2 * d) = 3) by (unfold q_star; field; lra).
  pose proof (q_star_pos d ltac:(lra)) as Hpos.
  set (qs := q_star d) in *. clearbody qs.
  split; nra.
Qed.

(** ** The idealised reading: the sombrero potential *)

(** sombrero_potential.py draws the case lambda = 1. *)
Lemma sombrero_potential_Z_spec (mu x y : R) :
  sombrero_potential_Z mu x y = sombreroPotential x y mu 1.
Proof. unfold sombrero_potential_Z, sombreroPotential. cbn. ring. Qed.

(** sombrero_sonnet.py draws the case lambda = 0.5 with the sign of the
    quadratic coefficient flipped. *)
Lemma sombrero_sonnet_V_spec (mu_sq x y : R) :
  sombrero_sonnet_V mu_sq x y = sombreroPotential x y (- mu_sq) (1 / 2).
Proof. unfold sombrero_sonnet_V, sombreroPotential, dec. cbn. field. Qed.

(** The first frame of sombrero_potential.py has mu = 2, the last one a
    negative mu: the animation crosses zero. *)
Lemma mu_of_frame_range :
  mu_of_frame (F := R) 0 60 = 2 /\ mu_of_frame (F := R) 59 60 < 0.
Proof. unfold mu_of_frame, dec. cbn. lra. Qed.

(** Completing the square in r^2. *)
Lemma sombreroPotential_square (x y mu lambda : R) :
  lambda <> 0 ->
  sombreroPotential x y mu lambda
  = lambda * (x ^ 2 + y ^ 2 - - mu / (2 * lambda)) ^ 2
    - mu ^ 2 / (4 * lambda).
Proof. intro Hl. unfold sombreroPotential. cbv zeta. field. assumption. Qed.

(** The partial derivative in one coordinate, the other held fixed.  The
    potential is symmetric in its two coordinates, so one statement serves
    both. *)
Lemma sombreroPotential_sym (x y mu lambda : R) :
  sombreroPotential x y mu lambda = sombreroPotential y x mu lambda.
Proof. unfold sombreroPotential. cbv zeta. ring. Qed.

Lemma sombreroPotential_partial_x (x y mu lambda : R) :
  derivable_pt_lim (fun x' => sombreroPotential x' y mu lambda) x
    (2 * x * (mu + 2 * lambda * (x ^ 2 + y ^ 2))).
Proof.
  (* a polynomial in x': lambda x'^4 + (mu + 2 lambda y^2) x'^2 + constant *)
  set (a := mu + 2 * lambda * y ^ 2).
  set (c := mu * y ^ 2 + lambda * y ^ 4).
  apply derivable_pt_lim_ext
    with (f := plus_fct
                 (plus_fct (mult_fct (fun _ => lambda) (fun z => z ^ 4))
                           (mult_fct (fun _ => a) (fun z => z ^ 2)))
                 (fun _ => c)).
  - intro z. unfold plus_fct, mult_fct, sombreroPotential, a, c.
    cbv zeta. ring.
  - replace (2 * x * (mu + 2 * lambda * (x ^ 2 + y ^ 2)))
      with ((0 * x ^ 4 + lambda * (INR 4 * x ^ pred 4))
            + (0 * x ^ 2 + a * (INR 2 * x ^ pred 2)) + 0)
      by (unfold a; cbn; ring).
    apply derivable_pt_lim_plus; [apply derivable_pt_lim_plus |].
    + apply (derivable_pt_lim_mult (fun _ => lambda) (fun z => z ^ 4)).
      * apply derivable_pt_lim_const.
      * apply derivable_pt_lim_pow.
    + apply (derivable_pt_lim_mult (fun _ => a) (fun z => z ^ 2)).
      * apply derivable_pt_lim_const.
      * apply derivable_pt_lim_pow.
    + apply derivable_pt_lim_const.
Qed.

Lemma sombreroPotential_partial_y (x y mu lambda : R) :
  derivable_pt_lim (fun y' => sombreroPotential x y' mu lambda) y
    (2 * y * (mu + 2 * lambda * (x ^ 2 + y ^ 2))).
Proof.
  apply derivable_pt_lim_ext
    with (f := fun y' => sombreroPotential y' x mu lambda).
  - intro z. apply sombreroPotential_sym.
  - replace (x ^ 2 + y ^ 2) with (y ^ 2 + x ^ 2) by ring.
    apply sombreroPotential_partial_x.
Qed.

(** C6. For every mu and every positive lambda the potential
    mu r^2 + lambda r^4, r^2 = x^2 + y^2, is 0 at the origin; it is
    non-negative everywhere when mu >= 0; when mu < 0 its least value
    - mu^2 / (4 lambda) is negative, is taken exactly on the ring
    r^2 = - mu / (2 lambda), which does not contain the origin, and both
    partial derivatives vanish there.  The two scripts draw the cases
    lambda = 1 and (mu, lambda) = (- mu_sq, 0.5). *)
Theorem sombreroPotential_shape :
  forall (mu lambda : R),
    0 < lambda ->
    (forall x y, sombreroPotential x y mu lambda
                 = mu * (x ^ 2 + y ^ 2) + lambda * (x ^ 2 + y ^ 2) ^ 2) /\
    sombreroPotential 0 0 mu lambda = 0 /\
    (0 <= mu -> forall x y, 0 <= sombreroPotential x y mu lambda) /\
    (mu < 0 ->
     let ring_r2 := - mu / (2 * lambda) in
     let least := - mu ^ 2 / (4 * lambda) in
     0 < ring_r2 /\
     least < sombreroPotential 0 0 mu lambda /\
     (forall x y, least <= sombreroPotential x y mu lambda) /\
     (forall x y, sombreroPotential x y mu lambda = least
                  <-> x ^ 2 + y ^ 2 = ring_r2) /\
     (forall x y, x ^ 2 + y ^ 2 = ring_r2 ->
                  derivable_pt_lim
                    (fun x' => sombreroPotential x' y mu lambda) x 0 /\
                  derivable_pt_lim
                    (fun y' => sombreroPotential x y' mu lambda) y 0)) /\
    (forall x y, sombrero_potential_Z mu x y = sombreroPotential x y mu 1) /\
    (forall x y, sombrero_sonnet_V (- mu) x y
                 = sombreroPotential x y mu (1 / 2)).
Proof.
  intros mu lambda Hl.
  split; [intros; reflexivity |].
  split; [unfold sombreroPotential; cbv zeta; ring |].
  split.
  { intros Hmu x y. unfold sombreroPotential. cbv zeta.
    assert (0 <= x ^ 2 + y ^ 2) by nra.
    assert (0 <= (x ^ 2 + y ^ 2) ^ 2) by nra.
    nra. }
  split.
  2:{ split; intros x y.
      - apply sombrero_potential_Z_spec.
      - rewrite sombrero_sonnet_V_spec, Ropp_involutive. reflexivity. }
  intros Hmu ring_r2 least.
  assert (Hring : 0 < ring_r2).
  { unfold ring_r2. apply Rdiv_lt_0_compat; lra. }
  assert (Hleast : least < 0).
  { unfold least.
    replace (- mu ^ 2 / (4 * lambda)) with (- (mu ^ 2 / (4 * lambda)))
      by (field; lra).
    assert (0 < mu ^ 2 / (4 * lambda)) by (apply Rdiv_lt_0_compat; nra).
    lra. }
  assert (Hsq : forall x y,
             sombreroPotential x y mu lambda
             = lambda * (x ^ 2 + y ^ 2 - ring_r2) ^ 2 + least).
  { intros x y. rewrite sombreroPotential_square by lra.
    unfold ring_r2, least. field. lra. }
  split; [exact Hring |].
  split.
  { replace (sombreroPotential 0 0 mu lambda) with 0;
      [exact Hleast | unfold sombreroPotential; cbv zeta; ring]. }
  split.
  { intros x y. rewrite Hsq.
    pose proof (pow2_ge_0 (x ^ 2 + y ^ 2 - ring_r2)) as Hge.
    clearbody ring_r2 least. nra. }
  split.
  { intros x y. rewrite Hsq. split.
    - intro E.
      assert (E2 : lambda * (x ^ 2 + y ^ 2 - ring_r2) ^ 2 = 0) by lra.
      apply Rmult_integral in E2. destruct E2 as [E2 | E2]; [lra |].
      destruct (Req_dec (x ^ 2 + y ^ 2 - ring_r2) 0) as [Z | NZ]; [lra |].
      exfalso. exact (pow_nonzero _ 2 NZ E2).
    - intro E. rewrite E. ring. }
  intros x y Hon.
  assert (Hzero : mu + 2 * lambda * (x ^ 2 + y ^ 2) = 0).
  { rewrite Hon. unfold ring_r2. field. lra. }
  split.
  - replace 0 with (2 * x * (mu + 2 * lambda * (x ^ 2 + y ^ 2)))
      by (rewrite Hzero; ring).
    apply sombreroPotential_partial_x.
  - replace 0 with (2 * y * (mu + 2 * lambda * (x ^ 2 + y ^ 2)))
      by (rewrite Hzero; ring).
    apply sombreroPotential_partial_y.
Qed.

Lemma sombreroPotential_shape_witness :
  sombreroPotential 0 0 (-1) 1 = 0 /\
  sombreroPotential 1 1 (-1) 1 = 2 /\
  (forall x y, - (1 / 4) <= sombreroPotential x y (-1) 1).
Proof.
  assert (H1 : 0 < 1) by lra.
  destruct (sombreroPotential_shape (-1) 1 H1)
    as (_ & Horigin & _ & Hneg & _).
  split; [exact Horigin |].
  split; [unfold sombreroPotential; cbv zeta; lra |].
  assert (Hm : -1 < 0) by lra.
  destruct (Hneg Hm) as (_ & _ & Hleast & _).
  intros x y. specialize (Hleast x y). lra.
Defined.

(** ** The binary64 reading: conventional_readout.py *)

Ltac by_cases s :=
  destruct s; try discriminate; try reflexivity.

Lemma mul_zero_or_nan_l (x y : float) :
  zero_or_nan (Prim2SF x) = true ->
  zero_or_nan (Prim2SF (PrimFloat.mul x y)) = true.
Proof.
  intro Hx. rewrite mul_spec. unfold SF64mul.
  by_cases (Prim2SF x); by_cases (Prim2SF y).
Qed.

Lemma mul_zero_or_nan_r (x y : float) :
  zero_or_nan (Prim2SF y) = true ->
  zero_or_nan (Prim2SF (PrimFloat.mul x y)) = true.
Proof.
  intro Hy. rewrite mul_spec. unfold SF64mul.
  by_cases (Prim2SF y); by_cases (Prim2SF x).
Qed.

Lemma sqrt_zero_or_nan (x : float) :
  zero_or_nan (Prim2SF x) = true ->
  zero_or_nan (Prim2SF (PrimFloat.sqrt x)) = true.
Proof.
  intro Hx. rewrite sqrt_spec. unfold SF64sqrt.
  by_cases (Prim2SF x).
Qed.

Lemma div_zero_or_nan_l (x y : float) :
  zero_or_nan (Prim2SF x) = true ->
  zero_or_nan (Prim2SF (PrimFloat.div x y)) = true.
Proof.
  intro Hx. rewrite div_spec. unfold SF64div.
  by_cases (Prim2SF x); by_cases (Prim2SF y).
Qed.

(** Dividing by a zero or a NaN never gives a finite value. *)
Lemma div_by_zero_or_nan (x y : float) :
  zero_or_nan (Prim2SF y) = true ->
  inf_or_nan (Prim2SF (PrimFloat.div x y)) = true.
Proof.
  intro Hy. rewrite div_spec. unfold SF64div.
  by_cases (Prim2SF y); by_cases (Prim2SF x).
Qed.

Lemma mul_inf_or_nan_l (x y : float) :
  inf_or_nan (Prim2SF x) = true ->
  inf_or_nan (Prim2SF (PrimFloat.mul x y)) = true.
Proof.
  intro Hx. rewrite mul_spec. unfold SF64mul.
  by_cases (Prim2SF x); by_cases (Prim2SF y).
Qed.

Lemma mul_inf_or_nan_r (x y : float) :
  inf_or_nan (Prim2SF y) = true ->
  inf_or_nan (Prim2SF (PrimFloat.mul x y)) = true.
Proof.
  intro Hy. rewrite mul_spec. unfold SF64mul.
  by_cases (Prim2SF y); by_cases (Prim2SF x).
Qed.

Lemma add_inf_or_nan (x y : float) :
  inf_or_nan (Prim2SF x) = true ->
  inf_or_nan (Prim2SF y) = true ->
  inf_or_nan (Prim2SF (PrimFloat.add x y)) = true.
Proof.
  intros Hx Hy. rewrite add_spec. unfold SF64add.
  by_cases (Prim2SF x); by_cases (Prim2SF y);
    repeat match goal with s : bool |- _ => destruct s end; reflexivity.
Qed.

Lemma is_zero64_class (x : float) :
  is_zero64 x = true -> zero_or_nan (Prim2SF x) = true.
Proof. unfold is_zero64. by_cases (Prim2SF x). Qed.

Lemma inf_or_nan_not_finite (x : float) :
  inf_or_nan (Prim2SF x) = true -> is_finite64 x = false.
Proof. unfold is_finite64. by_cases (Prim2SF x). Qed.

(** A zero signal-to-noise ratio per readout, from either cause, makes the
    result an infinity or a NaN. *)
Lemma calculate_time_to_snr_not_finite
    (params : AcquisitionParams float) (evolution_time target_snr : float) :
  is_zero64 (contrast params) = true
  \/ is_zero64 (photon_count_rate params) = true ->
  is_finite64 (calculate_time_to_snr params evolution_time target_snr)
  = false.
Proof.
  intro Hzero.
  apply inf_or_nan_not_finite.
  unfold calculate_time_to_snr, photons_per_readout. cbn.
  set (snr := PrimFloat.div (PrimFloat.mul _ _) _).
  assert (Hsnr : zero_or_nan (Prim2SF snr) = true).
  { unfold snr.
    apply div_zero_or_nan_l, mul_zero_or_nan_l.
    destruct Hzero as [Hc | Hr].
    - apply mul_zero_or_nan_l, is_zero64_class, Hc.
    - apply mul_zero_or_nan_r, sqrt_zero_or_nan, mul_zero_or_nan_l,
        is_zero64_class, Hr. }
  pose proof (div_by_zero_or_nan target_snr snr Hsnr) as Hn.
  set (n := PrimFloat.div target_snr snr) in *.
  apply add_inf_or_nan.
  - apply mul_inf_or_nan_r, mul_inf_or_nan_l, Hn.
  - apply mul_inf_or_nan_l, mul_inf_or_nan_l, Hn.
Qed.

(** C3 (as amended). [calculate_time_to_snr] validates nothing and raises
    nothing.  With a zero contrast or a zero photon count rate the call
    returns, and what it returns is an infinity or a NaN, never a finite
    number. *)
Theorem calculate_time_to_snr_zero_signal :
  forall (params : AcquisitionParams float) (evolution_time target_snr : float),
    is_zero64 (contrast params) = true
    \/ is_zero64 (photon_count_rate params) = true ->
    exists v,
      call_calculate_time_to_snr params evolution_time target_snr
      = Returned v
      /\ is_finite64 v = false.
Proof.
  intros params evo snr Hzero.
  exists (calculate_time_to_snr params evo snr).
  split; [reflexivity |].
  apply calculate_time_to_snr_not_finite, Hzero.
Qed.

Lemma calculate_time_to_snr_zero_signal_witness :
  exists v,
    call_calculate_time_to_snr zero_contrast_params (lit 0) (lit 5)
    = Returned v
    /\ is_finite64 v = false.
Proof.
  apply (calculate_time_to_snr_zero_signal zero_contrast_params
           (lit 0) (lit 5)).
  left. vm_compute. reflexivity.
Defined.

(** At zero contrast the call does not fail: it returns NaN.  And a
    negative rate with a negative readout time gives a finite number. *)
Lemma calculate_time_to_snr_returns_nan :
  call_calculate_time_to_snr zero_contrast_params (lit 0) (lit 5)
  = Returned PrimFloat.nan
  /\ (forall e,
        call_calculate_time_to_snr zero_contrast_params (lit 0) (lit 5)
        <> Raised e)
  /\ (exists v,
        call_calculate_time_to_snr negative_rate_params (lit 0) (lit 5)
        = Returned v
        /\ is_finite64 v = true).
Proof.
  split; [vm_compute; reflexivity |].
  split; [intros e E; discriminate E |].
  eexists. split; [reflexivity | vm_compute; reflexivity].
Qed.

(** The first system of the script, evaluated in binary64: a finite
    positive time at contrast 0.30, a longer one at contrast 0.08, and +inf
    at contrast 0 once the evolution time is positive. *)
Example calculate_time_to_snr_binary64_values :
  let at_contrast c :=
    calculate_time_to_snr
      {| photon_count_rate := lit 50000; readout_time := dec 1 1000000;
         contrast := c |} in
  is_finite64 (at_contrast (dec 30 100) (lit 0) (lit 5)) = true
  /\ PrimFloat.ltb PrimFloat.zero (at_contrast (dec 30 100) (lit 0) (lit 5))
     = true
  /\ PrimFloat.ltb (at_contrast (dec 30 100) (lit 0) (lit 5))
                   (at_contrast (dec 8 100) (lit 0) (lit 5)) = true
  /\ at_contrast (lit 0) (dec 1 10) (lit 5) = PrimFloat.infinity.
Proof. repeat split; vm_compute; reflexivity. Qed.

(** ** plot_T1_decay_80K_2L.py: what the script hands to [curve_fit] and
    what it makes of the answer *)

Section FitLemmas.
Context {F : Type} {arith : Arith F} {trans : Transcendental F}.
Variable curve_fit : curve_fit_t F.

Lemma initial_guess_cons (t0 s0 : F) (ts ss : list F) :
  initial_guess (t0 :: ts) (s0 :: ss)
  = Returned [ fold_left max_ ss s0;
               div (sub (fold_left max_ ts t0) (fold_left min_ ts t0))
                   (lit 2);
               lit 1 ].
Proof. reflexivity. Qed.

(** The script is one call of [curve_fit], from the initial guess, with
    [absolute_sigma=True] and [maxfev=10000]. *)
Lemma fit_stretched_exp_call (time_us signal error p0 : list F) :
  initial_guess time_us signal = Returned p0 ->
  fit_stretched_exp curve_fit time_us signal error
  = bind (curve_fit stretched_exp time_us signal error p0 true 10000%Z)
         unpack_fit.
Proof.
  intro Hp0. unfold fit_stretched_exp. rewrite Hp0. reflexivity.
Qed.

Lemma unpack_fit_three (A tau gamma : F) (pcov : list (list F)) :
  unpack_fit ([A; tau; gamma], pcov)
  = Returned {| A_fit := A; tau_fit := tau; gamma_fit := gamma;
                perr := map sqrt_ (np_diag pcov) |}.
Proof. reflexivity. Qed.

(** [np_diag] picks entry [i] of row [i]. *)
Lemma diag_from_nth_error (m : list (list F)) :
  forall k i,
    (forall row, In row m -> k + length m <= length row)%nat ->
    nth_error (diag_from k m) i
    = match nth_error m i with
      | Some row => nth_error row (k + i)
      | None => None
      end.
Proof.
  induction m as [| row rest IH]; intros k i Hwide.
  - destruct i; reflexivity.
  - cbn [diag_from].
    assert (Hk : (k < length row)%nat).
    { specialize (Hwide row (or_introl eq_refl)). cbn in Hwide. lia. }
    destruct (nth_error row k) as [x |] eqn:Hx.
    2:{ apply nth_error_None in Hx. lia. }
    destruct i as [| i].
    + cbn. rewrite Nat.add_0_r. symmetry. exact Hx.
    + cbn [nth_error]. rewrite IH.
      * replace (S k + i)%nat with (k + S i)%nat by lia. reflexivity.
      * intros r Hr. specialize (Hwide r (or_intror Hr)). cbn in Hwide. lia.
Qed.

Lemma np_diag_square (n : nat) (m : list (list F)) (i : nat) :
  length m = n -> (forall row, In row m -> length row = n) ->
  nth_error (np_diag m) i
  = match nth_error m i with
    | Some row => nth_error row i
    | None => None
    end.
Proof.
  intros Hn Hrows. unfold np_diag.
  rewrite diag_from_nth_error; [reflexivity |].
  intros row Hin. rewrite (Hrows row Hin), Hn. cbn. lia.
Qed.

(** With two rows or more the file loads as a two-dimensional array and the
    script reaches the fit; with fewer it stops at line 26. *)
Lemma fit_T1_two_rows (data : SampleSeries F) :
  (2 <= length data)%nat ->
  fit_T1 curve_fit data
  = fit_stretched_exp curve_fit (to_time_us (column_time_ms data))
      (column_signal data) (column_error data).
Proof.
  destruct data as [| r0 [| r1 rest]]; cbn [length]; intro Hlen;
    [lia | lia | reflexivity].
Qed.

Lemma fit_T1_short (data : SampleSeries F) :
  (length data < 2)%nat ->
  fit_T1 curve_fit data
  = Raised (ArrayIndexError "too many indices for array").
Proof.
  destruct data as [| r0 [| r1 rest]]; cbn [length]; intro Hlen;
    [reflexivity | reflexivity | lia].
Qed.

Lemma initial_guess_nonempty (time_us signal : list F) :
  time_us <> [] -> signal <> [] ->
  exists A0 t_max t_min,
    ndarray_max signal = Returned A0 /\
    ndarray_max time_us = Returned t_max /\
    ndarray_min time_us = Returned t_min /\
    initial_guess time_us signal
    = Returned [A0; div (sub t_max t_min) (lit 2); lit 1].
Proof.
  intros Ht Hs.
  destruct time_us as [| t0 ts]; [contradiction |].
  destruct signal as [| s0 ss]; [contradiction |].
  do 3 eexists. repeat split; reflexivity.
Qed.

(** The standard errors, entry by entry, for a square covariance of any
    size. *)
Lemma perr_nth (n : nat) (pcov : list (list F)) (i : nat) :
  length pcov = n -> (forall row, In row pcov -> length row = n) ->
  nth_error (map sqrt_ (np_diag pcov)) i
  = match nth_error pcov i with
    | Some row => option_map sqrt_ (nth_error row i)
    | None => None
    end.
Proof.
  intros Hn Hrows.
  rewrite nth_error_map, (np_diag_square n pcov i Hn Hrows).
  destruct (nth_error pcov i) as [row |]; reflexivity.
Qed.

(** The columns of a series all have its length. *)
Lemma column_lengths (series : SampleSeries F) :
  length (column_time_ms series) = length series /\
  length (column_signal series) = length series /\
  length (column_error series) = length series.
Proof.
  unfold column_time_ms, column_signal, column_error.
  rewrite !length_map. auto.
Qed.
End FitLemmas.

(** Over the reals [a.max()] is the greatest element and [a.min()] the
    least. *)
Lemma fold_left_Rmax_greatest (l : list R) :
  forall x,
    In (fold_left Rmax l x) (x :: l) /\
    (forall y, In y (x :: l) -> y <= fold_left Rmax l x).
Proof.
  induction l as [| a l IH]; intro x; cbn [fold_left].
  - split; [left; reflexivity |].
    intros y [-> | []]. lra.
  - destruct (IH (Rmax x a)) as [Hin Hub]. split.
    + destruct Hin as [E | Hin].
      * rewrite <- E. unfold Rmax. destruct (Rle_dec x a); cbn; auto.
      * right. right. exact Hin.
    + intros y Hy.
      pose proof (Hub (Rmax x a) (or_introl eq_refl)) as Hm.
      pose proof (Rmax_l x a). pose proof (Rmax_r x a).
      destruct Hy as [-> | [-> | Hy]]; try lra.
      apply Hub. right. exact Hy.
Qed.

Lemma fold_left_Rmin_least (l : list R) :
  forall x,
    In (fold_left Rmin l x) (x :: l) /\
    (forall y, In y (x :: l) -> fold_left Rmin l x <= y).
Proof.
  induction l as [| a l IH]; intro x; cbn [fold_left].
  - split; [left; reflexivity |].
    intros y [-> | []]. lra.
  - destruct (IH (Rmin x a)) as [Hin Hlb]. split.
    + destruct Hin as [E | Hin].
      * rewrite <- E. unfold Rmin. destruct (Rle_dec x a); cbn; auto.
      * right. right. exact Hin.
    + intros y Hy.
      pose proof (Hlb (Rmin x a) (or_introl eq_refl)) as Hm.
      pose proof (Rmin_l x a). pose proof (Rmin_r x a).
      destruct Hy as [-> | [-> | Hy]]; try lra.
      apply Hlb. right. exact Hy.
Qed.

(** The model function over the reals, for positive times. *)
Lemma stretched_exp_R (t A tau gamma : R) :
  0 < t -> 0 < tau ->
  stretched_exp t A tau gamma = A * exp (- Rpower (t / tau) gamma).
Proof.
  intros Ht Htau. unfold stretched_exp. cbn. unfold Rpower_np.
  destruct (Req_dec_T (t / tau) 0) as [E | _]; [| reflexivity].
  assert (0 < t / tau) by (apply Rdiv_lt_0_compat; assumption). lra.
Qed.

(** The square root of a covariance entry that is +inf is +inf, and that
    of a negative entry is NaN: neither comes out as zero. *)
Lemma sqrt_of_infinity (d : float) :
  Prim2SF d = S754_infinity false ->
  Prim2SF (PrimFloat.sqrt d) = S754_infinity false.
Proof. intro Hd. rewrite sqrt_spec, Hd. reflexivity. Qed.

Lemma sqrt_of_negative (d : float) :
  (Prim2SF d = S754_infinity true
   \/ exists mant e, Prim2SF d = S754_finite true mant e) ->
  Prim2SF (PrimFloat.sqrt d) = S754_nan.
Proof.
  intros [Hd | (mant & e & Hd)]; rewrite sqrt_spec, Hd; reflexivity.
Qed.



(** ** The binary64 reading: the fit *)

(** C8 (as amended). For a series of two rows or more the script calls
    [curve_fit] once, with the cap [maxfev = 10000].  An exception raised by
    [curve_fit] (the cap was reached without convergence) reaches the
    caller unchanged.  An answer of [curve_fit] is not inspected: whatever
    covariance comes back, the script goes on as after a successful fit,
    with the square roots of its diagonal as standard errors, +inf for an
    entry +inf and NaN for a negative entry. *)
Theorem fit_T1_failure_reporting :
  forall (m : libm) (curve_fit : curve_fit_t float)
         (data : list (float * float * float)),
    (2 <= length data)%nat ->
    let trans := Transcendental_binary64 m in
    let time_us := map (fun x => PrimFloat.mul x (lit 1000))
                       (map (fun row => fst (fst row)) data) in
    let signal := map (fun row => snd (fst row)) data in
    let error := map (fun row => snd row) data in
    exists A0 t_max t_min,
      ndarray_max signal = Returned A0 /\
      ndarray_max time_us = Returned t_max /\
      ndarray_min time_us = Returned t_min /\
      let answer :=
        curve_fit stretched_exp time_us signal error
          [A0; PrimFloat.div (PrimFloat.sub t_max t_min) (lit 2); lit 1]
          true 10000%Z in
      fit_T1 curve_fit data = bind answer unpack_fit /\
      (forall e, answer = Raised e -> fit_T1 curve_fit data = Raised e) /\
      (forall A tau gamma pcov,
          answer = Returned ([A; tau; gamma], pcov) ->
          fit_T1 curve_fit data
          = Returned {| A_fit := A; tau_fit := tau; gamma_fit := gamma;
                        perr := map PrimFloat.sqrt (np_diag pcov) |}) /\
      (forall d,
          Prim2SF d = S754_infinity false ->
          Prim2SF (PrimFloat.sqrt d) = S754_infinity false) /\
      (forall d,
          (Prim2SF d = S754_infinity true
           \/ exists mant e, Prim2SF d = S754_finite true mant e) ->
          Prim2SF (PrimFloat.sqrt d) = S754_nan).
Proof.
  intros m curve_fit data Hlen trans time_us signal error.
  destruct (initial_guess_nonempty time_us signal)
    as (A0 & t_max & t_min & HA & Hmax & Hmin & Hguess).
  { destruct data; [cbn in Hlen; lia | discriminate]. }
  { destruct data; [cbn in Hlen; lia | discriminate]. }
  exists A0, t_max, t_min.
  split; [exact HA |]. split; [exact Hmax |]. split; [exact Hmin |].
  intro answer.
  assert (Hcall : fit_T1 curve_fit data = bind answer unpack_fit).
  { rewrite (fit_T1_two_rows curve_fit data Hlen).
    change (to_time_us (column_time_ms data)) with time_us.
    change (column_signal data) with signal.
    change (column_error data) with error.
    apply (fit_stretched_exp_call curve_fit time_us signal error _ Hguess). }
  split; [exact Hcall |].
  split; [intros e He; rewrite Hcall, He; reflexivity |].
  split; [intros A tau gamma pcov Hfit; rewrite Hcall, Hfit; reflexivity |].
  split; [exact sqrt_of_infinity | exact sqrt_of_negative].
Qed.

Lemma fit_T1_failure_reporting_witness :
  fit_T1 (trans := Transcendental_binary64 libm_nan)
         diverging_curve_fit flat_series
  = Raised (RuntimeError "Optimal parameters not found"%string).
Proof.
  assert (Hdata : (2 <= length flat_series)%nat) by (cbn; lia).
  destruct (fit_T1_failure_reporting libm_nan diverging_curve_fit
              flat_series Hdata)
    as (A0 & t_max & t_min & _ & _ & _ & _ & Hraise & _).
  apply Hraise. reflexivity.
Defined.

(** A fit whose covariance could not be estimated is a failed fit, and the
    script returns from it as from a successful one, with three infinite
    standard errors. *)
Lemma fit_T1_singular_covariance_is_success :
  fit_failed
    (rank_deficient_curve_fit
       (stretched_exp (trans := Transcendental_binary64 libm_nan))
       (to_time_us (column_time_ms flat_series))
       (column_signal flat_series) (column_error flat_series)
       [lit 0; lit 1000; lit 1] true 10000%Z)
  = true
  /\ fit_T1 (trans := Transcendental_binary64 libm_nan)
            rank_deficient_curve_fit flat_series
     = Returned {| A_fit := lit 0; tau_fit := lit 1000; gamma_fit := lit 1;
                   perr := [PrimFloat.infinity; PrimFloat.infinity;
                            PrimFloat.infinity] |}
  /\ (forall e,
        fit_T1 (trans := Transcendental_binary64 libm_nan)
               rank_deficient_curve_fit flat_series
        <> Raised e).
Proof.
  split; [vm_compute; reflexivity |].
  split; [vm_compute; reflexivity |].
  intros e E. vm_compute in E. discriminate E.
Qed.

(** * Further properties of the scripts *)

(** ** conventional_readout.py over the reals: how the time scales *)

(** X1. The total time is affine in the evolution time, with the number of
    readouts 2 snr^2 / (c^2 rate ro) as slope, so it grows strictly with
    the evolution time: the curves the script plots are rising straight
    lines. *)
Theorem calculate_time_to_snr_affine_in_evolution :
  forall (rate ro c snr e1 e2 : R),
    0 < rate -> 0 < ro -> c <> 0 -> snr <> 0 ->
    let T e :=
      calculate_time_to_snr
        {| photon_count_rate := rate; readout_time := ro; contrast := c |}
        e snr in
    T e2 - T e1 = 2 * snr ^ 2 / (c ^ 2 * (rate * ro)) * (e2 - e1) /\
    (e1 < e2 -> T e1 < T e2).
Proof.
  intros rate ro c snr e1 e2 Hrate Hro Hc Hsnr T. unfold T.
  rewrite !calculate_time_to_snr_closed by assumption.
  assert (Hden : 0 < c ^ 2 * (rate * ro)).
  { apply Rmult_lt_0_compat; [| nra].
    destruct (Rdichotomy _ _ Hc); nra. }
  assert (Hnum : 0 < 2 * snr ^ 2).
  { destruct (Rdichotomy _ _ Hsnr); nra. }
  split.
  - field. lra.
  - intro Hlt.
    assert (Hn : 0 < 2 * snr ^ 2 / (c ^ 2 * (rate * ro)))
      by (apply Rdiv_lt_0_compat; assumption).
    apply Rlt_0_minus.
    replace (2 * snr ^ 2 * (e2 + ro) / (c ^ 2 * (rate * ro))
             - 2 * snr ^ 2 * (e1 + ro) / (c ^ 2 * (rate * ro)))
      with (2 * snr ^ 2 / (c ^ 2 * (rate * ro)) * (e2 - e1))
      by (field; lra).
    apply Rmult_lt_0_compat; lra.
Qed.

Lemma calculate_time_to_snr_affine_in_evolution_witness :
  calculate_time_to_snr
    {| photon_count_rate := 50000; readout_time := 1 / 1000000;
       contrast := 3 / 10 |} 0 5
  < calculate_time_to_snr
      {| photon_count_rate := 50000; readout_time := 1 / 1000000;
         contrast := 3 / 10 |} (1 / 10) 5.
Proof.
  refine (proj2 (calculate_time_to_snr_affine_in_evolution
                   50000 (1 / 1000000) (3 / 10) 5 0 (1 / 10) _ _ _ _) _);
    lra.
Defined.


(** X3. The total time is inversely proportional to the photon count
    rate. *)
Theorem calculate_time_to_snr_inverse_in_rate :
  forall (rate ro c evo snr k : R),
    0 < rate -> 0 < ro -> c <> 0 -> 0 < k ->
    calculate_time_to_snr
      {| photon_count_rate := k * rate; readout_time := ro; contrast := c |}
      evo snr
    = calculate_time_to_snr
        {| photon_count_rate := rate; readout_time := ro; contrast := c |}
        evo snr / k.
Proof.
  intros rate ro c evo snr k Hrate Hro Hc Hk.
  rewrite !calculate_time_to_snr_closed by (try assumption; nra).
  field. repeat split; lra.
Qed.

Lemma calculate_time_to_snr_inverse_in_rate_witness :
  calculate_time_to_snr
    {| photon_count_rate := 4 * 50000; readout_time := 1 / 1000000;
       contrast := 3 / 10 |} 0 5
  = calculate_time_to_snr
      {| photon_count_rate := 50000; readout_time := 1 / 1000000;
         contrast := 3 / 10 |} 0 5 / 4.
Proof.
  apply (calculate_time_to_snr_inverse_in_rate
           50000 (1 / 1000000) (3 / 10) 0 5 4); lra.
Defined.


(** X5. With a positive evolution time a longer readout shortens the total
    time (at evolution time 0 it has no effect, C10). *)
Theorem calculate_time_to_snr_decreasing_in_readout_time :
  forall (rate c evo snr ro1 ro2 : R),
    0 < rate -> c <> 0 -> snr <> 0 -> 0 < evo ->
    0 < ro1 -> ro1 < ro2 ->
    calculate_time_to_snr
      {| photon_count_rate := rate; readout_time := ro2; contrast := c |}
      evo snr
    < calculate_time_to_snr
        {| photon_count_rate := rate; readout_time := ro1; contrast := c |}
        evo snr.
Proof.
  intros rate c evo snr ro1 ro2 Hrate Hc Hsnr Hevo Hro1 Hlt.
  rewrite !calculate_time_to_snr_closed by (try assumption; lra).
  assert (Hc2 : 0 < c ^ 2) by (destruct (Rdichotomy _ _ Hc); nra).
  assert (Hs2 : 0 < snr ^ 2) by (destruct (Rdichotomy _ _ Hsnr); nra).
  assert (HK : 0 < 2 * snr ^ 2 / (c ^ 2 * rate)).
  { apply Rdiv_lt_0_compat; nra. }
  replace (2 * snr ^ 2 * (evo + ro2) / (c ^ 2 * (rate * ro2)))
    with (2 * snr ^ 2 / (c ^ 2 * rate) * (1 + evo * / ro2))
    by (field; lra).
  replace (2 * snr ^ 2 * (evo + ro1) / (c ^ 2 * (rate * ro1)))
    with (2 * snr ^ 2 / (c ^ 2 * rate) * (1 + evo * / ro1))
    by (field; lra).
  apply Rmult_lt_compat_l; [assumption |].
  apply Rplus_lt_compat_l, Rmult_lt_compat_l; [assumption |].
  apply Rinv_lt_contravar; nra.
Qed.

Lemma calculate_time_to_snr_decreasing_in_readout_time_witness :
  calculate_time_to_snr
    {| photon_count_rate := 50000; readout_time := 2 / 1000000;
       contrast := 3 / 10 |} (1 / 10) 5
  < calculate_time_to_snr
      {| photon_count_rate := 50000; readout_time := 1 / 1000000;
         contrast := 3 / 10 |} (1 / 10) 5.
Proof.
  apply (calculate_time_to_snr_decreasing_in_readout_time
           50000 (3 / 10) (1 / 10) 5 (1 / 1000000) (2 / 1000000)); lra.
Defined.

(** ** conventional_readout.py in binary64: NaN and negative inputs *)

Lemma nan_class (x : float) :
  is_nan64 x = true -> Prim2SF x = S754_nan.
Proof. unfold is_nan64. destruct (Prim2SF x); try discriminate. reflexivity. Qed.

Lemma mul_nan_l (x y : float) :
  Prim2SF x = S754_nan -> Prim2SF (PrimFloat.mul x y) = S754_nan.
Proof. intro Hx. rewrite mul_spec, Hx. reflexivity. Qed.

Lemma mul_nan_r (x y : float) :
  Prim2SF y = S754_nan -> Prim2SF (PrimFloat.mul x y) = S754_nan.
Proof.
  intro Hy. rewrite mul_spec, Hy. destruct (Prim2SF x); reflexivity.
Qed.

Lemma div_nan_l (x y : float) :
  Prim2SF x = S754_nan -> Prim2SF (PrimFloat.div x y) = S754_nan.
Proof. intro Hx. rewrite div_spec, Hx. reflexivity. Qed.

Lemma div_nan_r (x y : float) :
  Prim2SF y = S754_nan -> Prim2SF (PrimFloat.div x y) = S754_nan.
Proof.
  intro Hy. rewrite div_spec, Hy. destruct (Prim2SF x); reflexivity.
Qed.

Lemma add_nan_l (x y : float) :
  Prim2SF x = S754_nan -> Prim2SF (PrimFloat.add x y) = S754_nan.
Proof. intro Hx. rewrite add_spec, Hx. reflexivity. Qed.

Lemma add_nan_r (x y : float) :
  Prim2SF y = S754_nan -> Prim2SF (PrimFloat.add x y) = S754_nan.
Proof.
  intro Hy. rewrite add_spec, Hy. destruct (Prim2SF x); reflexivity.
Qed.

Lemma sqrt_nan (x : float) :
  Prim2SF x = S754_nan -> Prim2SF (PrimFloat.sqrt x) = S754_nan.
Proof. intro Hx. rewrite sqrt_spec, Hx. reflexivity. Qed.

(** X6. A NaN in any of the five inputs comes back as a NaN result: nothing
    in the body stops it, and nothing is raised. *)
Theorem calculate_time_to_snr_propagates_nan :
  forall (params : AcquisitionParams float) (evolution_time target_snr : float),
    is_nan64 (photon_count_rate params) = true
    \/ is_nan64 (readout_time params) = true
    \/ is_nan64 (contrast params) = true
    \/ is_nan64 evolution_time = true
    \/ is_nan64 target_snr = true ->
    exists v,
      call_calculate_time_to_snr params evolution_time target_snr
      = Returned v
      /\ is_nan64 v = true.
Proof.
  intros params evo snr Hnan.
  eexists. split; [reflexivity |].
  unfold is_nan64.
  match goal with |- match Prim2SF ?r with _ => _ end = true =>
    assert (Hr : Prim2SF r = S754_nan); [| rewrite Hr; reflexivity]
  end.
  unfold calculate_time_to_snr, photons_per_readout. cbn.
  assert (Hsnr_nan :
    forall s, Prim2SF s = S754_nan ->
              Prim2SF (PrimFloat.mul (PrimFloat.div snr s)
                                     (PrimFloat.div snr s)) = S754_nan).
  { intros s Hs. apply mul_nan_l, div_nan_r, Hs. }
  destruct Hnan as [H | [H | [H | [H | H]]]]; apply nan_class in H.
  - apply add_nan_l, mul_nan_r, Hsnr_nan, div_nan_l, mul_nan_l, mul_nan_r,
      sqrt_nan, mul_nan_l, H.
  - apply add_nan_r, mul_nan_r, H.
  - apply add_nan_l, mul_nan_r, Hsnr_nan, div_nan_l, mul_nan_l, mul_nan_l, H.
  - apply add_nan_l, mul_nan_l, H.
  - apply add_nan_l, mul_nan_r, mul_nan_l, div_nan_l, H.
Qed.

Lemma calculate_time_to_snr_propagates_nan_witness :
  exists v,
    call_calculate_time_to_snr
      {| photon_count_rate := lit 50000; readout_time := dec 1 1000000;
         contrast := PrimFloat.nan |} (lit 0) (lit 5)
    = Returned v
    /\ is_nan64 v = true.
Proof.
  apply (calculate_time_to_snr_propagates_nan
           {| photon_count_rate := lit 50000; readout_time := dec 1 1000000;
              contrast := PrimFloat.nan |} (lit 0) (lit 5)).
  right. right. left. vm_compute. reflexivity.
Defined.

(** Rounding keeps the sign it is given. *)
Lemma binary_round_aux_neg (mx ex : Z) (lx : location) :
  neg_or_nan (binary_round_aux prec emax true mx ex lx) = true.
Proof.
  unfold binary_round_aux.
  destruct (shr_fexp prec emax mx ex lx) as [mrs' e'].
  destruct (shr_fexp prec emax _ e' loc_Exact) as [mrs'' e''].
  destruct (shr_m mrs''); [reflexivity | | reflexivity].
  destruct (Z.leb e'' (emax - prec)); reflexivity.
Qed.

Lemma mul_opposite_signs (x y : float) :
  is_negative64 x && is_positive64 y
  || is_positive64 x && is_negative64 y = true ->
  neg_or_nan (Prim2SF (PrimFloat.mul x y)) = true.
Proof.
  unfold is_negative64, is_positive64.
  rewrite mul_spec. unfold SF64mul, SFmul.
  destruct (Prim2SF x) as [sx | sx | | sx mx ex];
    destruct (Prim2SF y) as [sy | sy | | sy my ey];
    try reflexivity;
    destruct sx, sy; cbn; intro Hs; try discriminate Hs; try reflexivity;
    apply binary_round_aux_neg.
Qed.

Lemma sqrt_neg_or_nan (x : float) :
  neg_or_nan (Prim2SF x) = true ->
  zero_or_nan (Prim2SF (PrimFloat.sqrt x)) = true.
Proof.
  intro Hx. rewrite sqrt_spec. unfold SF64sqrt, SFsqrt.
  destruct (Prim2SF x) as [s | s | | s mx ex]; try reflexivity;
    destruct s; try discriminate Hx; reflexivity.
Qed.

(** X7. When the count rate and the readout time have opposite signs the
    photon number is negative, its square root is a NaN (or a zero, if the
    product underflows), and the result is an infinity or a NaN, never a
    finite time. *)
Theorem calculate_time_to_snr_negative_photons :
  forall (params : AcquisitionParams float) (evolution_time target_snr : float),
    is_negative64 (photon_count_rate params)
      && is_positive64 (readout_time params)
    || is_positive64 (photon_count_rate params)
      && is_negative64 (readout_time params) = true ->
    is_finite64 (calculate_time_to_snr params evolution_time target_snr)
    = false.
Proof.
  intros params evo snr Hsign.
  apply inf_or_nan_not_finite.
  unfold calculate_time_to_snr, photons_per_readout. cbn.
  set (s := PrimFloat.div (PrimFloat.mul _ _) _).
  assert (Hs : zero_or_nan (Prim2SF s) = true).
  { unfold s.
    apply div_zero_or_nan_l, mul_zero_or_nan_l, mul_zero_or_nan_r,
      sqrt_neg_or_nan, mul_opposite_signs, Hsign. }
  pose proof (div_by_zero_or_nan snr s Hs) as Hn.
  apply add_inf_or_nan.
  - apply mul_inf_or_nan_r, mul_inf_or_nan_l, Hn.
  - apply mul_inf_or_nan_l, mul_inf_or_nan_l, Hn.
Qed.

Lemma calculate_time_to_snr_negative_photons_witness :
  is_finite64
    (calculate_time_to_snr
       {| photon_count_rate := lit (-50000); readout_time := dec 1 1000000;
          contrast := dec 30 100 |} (lit 0) (lit 5))
  = false.
Proof.
  apply (calculate_time_to_snr_negative_photons
           {| photon_count_rate := lit (-50000);
              readout_time := dec 1 1000000;
              contrast := dec 30 100 |} (lit 0) (lit 5)).
  vm_compute. reflexivity.
Defined.

(** ** delta_function.py over the reals: the shape of the peak *)

(** The exponent in terms of the offset measured in widths. *)
Lemma delta_function_closed (x center width amplitude : R) :
  width <> 0 ->
  delta_function x center width amplitude
  = amplitude * exp (- (4 * ln 2) * ((x - center) / width) ^ 2).
Proof.
  intro Hw. unfold delta_function. cbn.
  pose proof fwhm_constant_sq as Hk.
  pose proof fwhm_constant_pos as Hk0.
  set (k := sqrt (2 * ln 2)) in *. clearbody k.
  f_equal. f_equal.
  replace (4 * ln 2) with (2 * (k * k)) by lra.
  field. split; lra.
Qed.

Lemma four_ln_2_pos : 0 < 4 * ln 2.
Proof. pose proof ln_2_pos. lra. Qed.


(** Farther from the centre the value is smaller. *)
Lemma delta_function_lt_far (center width amplitude x1 x2 : R) :
  width <> 0 -> 0 < amplitude ->
  Rabs (x1 - center) < Rabs (x2 - center) ->
  delta_function x2 center width amplitude
  < delta_function x1 center width amplitude.
Proof.
  intros Hw Ha Hdist.
  rewrite !delta_function_closed by assumption.
  apply Rmult_lt_compat_l; [assumption |].
  apply exp_increasing.
  apply Rsqr_lt_abs_1 in Hdist. unfold Rsqr in Hdist.
  assert (Hw2 : 0 < width * width)
    by (destruct (Rdichotomy _ _ Hw); nra).
  assert (Hr : ((x1 - center) / width) ^ 2 < ((x2 - center) / width) ^ 2).
  { replace (((x1 - center) / width) ^ 2)
      with ((x1 - center) * (x1 - center) * / (width * width))
      by (field; assumption).
    replace (((x2 - center) / width) ^ 2)
      with ((x2 - center) * (x2 - center) * / (width * width))
      by (field; assumption).
    apply Rmult_lt_compat_r; [apply Rinv_0_lt_compat |]; assumption. }
  pose proof four_ln_2_pos. nra.
Qed.

Lemma delta_function_eq_same_distance (center width amplitude x1 x2 : R) :
  Rabs (x1 - center) = Rabs (x2 - center) ->
  delta_function x1 center width amplitude
  = delta_function x2 center width amplitude.
Proof.
  intro Hdist. unfold delta_function. cbn.
  replace ((x1 - center) * (x1 - center))
    with ((x2 - center) * (x2 - center)); [reflexivity |].
  assert (Hsq : Rsqr (x1 - center) = Rsqr (x2 - center))
    by (rewrite (Rsqr_abs (x1 - center)), (Rsqr_abs (x2 - center)), Hdist;
        reflexivity).
  unfold Rsqr in Hsq. symmetry. exact Hsq.
Qed.

(** X9. For a positive amplitude the value depends on the distance from the
    centre only, and falls strictly with it: of two points the one farther
    from the centre, and only that one, has the smaller value. *)
Theorem delta_function_decreasing_with_distance :
  forall (center width amplitude x1 x2 : R),
    width <> 0 -> 0 < amplitude ->
    (delta_function x2 center width amplitude
     < delta_function x1 center width amplitude
     <-> Rabs (x1 - center) < Rabs (x2 - center)).
Proof.
  intros center width amplitude x1 x2 Hw Ha. split.
  - intro Hlt.
    destruct (Rtotal_order (Rabs (x1 - center)) (Rabs (x2 - center)))
      as [Hd | [Hd | Hd]]; [assumption | exfalso | exfalso].
    + rewrite (delta_function_eq_same_distance _ width amplitude _ _ Hd)
        in Hlt.
      lra.
    + pose proof (delta_function_lt_far center width amplitude x2 x1
                    Hw Ha Hd).
      lra.
  - apply delta_function_lt_far; assumption.
Qed.

Lemma delta_function_decreasing_with_distance_witness :
  delta_function 2 1 (1 / 10) 1 < delta_function (3 / 2) 1 (1 / 10) 1.
Proof.
  assert (Hw : 1 / 10 <> 0) by lra.
  assert (Ha : 0 < 1) by lra.
  apply (proj2 (delta_function_decreasing_with_distance
                  1 (1 / 10) 1 (3 / 2) 2 Hw Ha)).
  replace (3 / 2 - 1) with (1 / 2) by lra.
  replace (2 - 1) with 1 by lra.
  rewrite !Rabs_pos_eq by lra. lra.
Defined.

(** X10. For a positive amplitude and width the value lies in
    (0, amplitude], and it is at least half the amplitude exactly on the
    interval of length [width] around the centre: [width] is the full width
    at half maximum. *)
Theorem delta_function_half_maximum_interval :
  forall (center width amplitude x : R),
    0 < width -> 0 < amplitude ->
    0 < delta_function x center width amplitude <= amplitude /\
    (amplitude / 2 <= delta_function x center width amplitude
     <-> Rabs (x - center) <= width / 2).
Proof.
  intros center width amplitude x Hw Ha.
  assert (Hhalf : forall h, h * h = width * width / 4 ->
            delta_function (center + h) center width amplitude
            = amplitude / 2)
    by (intros h Hh; apply delta_function_half_width; assumption).
  assert (Hpeak : delta_function center center width amplitude = amplitude).
  { rewrite delta_function_closed by lra.
    replace ((center - center) / width) with 0 by (field; lra).
    replace (- (4 * ln 2) * 0 ^ 2) with 0 by ring.
    rewrite exp_0. ring. }
  assert (Habs0 : Rabs (center - center) = 0).
  { replace (center - center) with 0 by ring. apply Rabs_R0. }
  split.
  - split.
    + rewrite delta_function_closed by lra.
      apply Rmult_lt_0_compat; [assumption | apply exp_pos].
    + destruct (Req_dec (x - center) 0) as [E | NE].
      * replace x with center by lra. lra.
      * left. rewrite <- Hpeak at 2.
        apply delta_function_lt_far; try lra.
        rewrite Habs0. apply Rabs_pos_lt. assumption.
  - assert (Hedge : delta_function (center + width / 2) center width amplitude
                    = amplitude / 2) by (apply Hhalf; field).
    assert (Habs_edge : Rabs (center + width / 2 - center) = width / 2).
    { replace (center + width / 2 - center) with (width / 2) by ring.
      apply Rabs_pos_eq. lra. }
    split.
    + intro Hge.
      destruct (Rle_or_lt (Rabs (x - center)) (width / 2)) as [Hle | Hgt];
        [assumption |].
      exfalso.
      rewrite <- Habs_edge in Hgt.
      pose proof (delta_function_lt_far
                    center width amplitude (center + width / 2) x
                    ltac:(lra) Ha Hgt).
      lra.
    + intros [Hlt | Heq].
      * rewrite <- Habs_edge in Hlt.
        pose proof (delta_function_lt_far
                      center width amplitude x (center + width / 2)
                      ltac:(lra) Ha Hlt).
        lra.
      * right. symmetry.
        replace x with (center + (x - center)) by ring.
        apply Hhalf.
        replace ((x - center) * (x - center)) with (Rsqr (Rabs (x - center)))
          by (rewrite <- Rsqr_abs; reflexivity).
        rewrite Heq. unfold Rsqr. field.
Qed.

Lemma delta_function_half_maximum_interval_witness :
  1 / 2 <= delta_function (1 + 1 / 40) 1 (1 / 10) 1.
Proof.
  assert (Hw : 0 < 1 / 10) by lra.
  assert (Ha : 0 < 1) by lra.
  destruct (delta_function_half_maximum_interval 1 (1 / 10) 1 (1 + 1 / 40)
              Hw Ha) as [_ [_ Hin]].
  apply Hin.
  replace (1 + 1 / 40 - 1) with (1 / 40) by lra.
  rewrite Rabs_pos_eq; lra.
Defined.

(** X11. [width] is not the standard deviation that the docstring names:
    one width away from the centre the value is amplitude / 16, and it is
    at the distance width / (2 sqrt (2 ln 2)) that the value is
    amplitude * exp (- 1/2), the value of a Gaussian one standard deviation
    out. *)
Theorem delta_function_width_is_not_sigma :
  forall (center width amplitude : R),
    0 < width ->
    delta_function (center + width) center width amplitude = amplitude / 16
    /\ delta_function (center + width / (2 * sqrt (2 * ln 2)))
                      center width amplitude
       = amplitude * exp (- (1 / 2)).
Proof.
  intros center width amplitude Hw.
  pose proof fwhm_constant_sq as Hk.
  pose proof fwhm_constant_pos as Hk0.
  rewrite !delta_function_closed by lra. split.
  - replace ((center + width - center) / width) with 1 by (field; lra).
    replace (- (4 * ln 2) * 1 ^ 2)
      with (- ln 2 + (- ln 2 + (- ln 2 + - ln 2))) by ring.
    rewrite !exp_plus, exp_minus_ln_2. field.
  - f_equal. f_equal.
    set (k := sqrt (2 * ln 2)) in *. clearbody k.
    replace ((center + width / (2 * k) - center) / width) with (/ (2 * k))
      by (field; split; lra).
    replace (4 * ln 2) with (2 * (k * k)) by lra.
    field. lra.
Qed.

Lemma delta_function_width_is_not_sigma_witness :
  delta_function (1 + 1 / 10) 1 (1 / 10) 1 = 1 / 16.
Proof.
  assert (Hw : 0 < 1 / 10) by lra.
  exact (proj1 (delta_function_width_is_not_sigma 1 (1 / 10) 1 Hw)).
Defined.

(** ** atc_plots_kernel.py over the reals: the ridge *)

Lemma exp_le_mono (x y : R) : x <= y -> exp x <= exp y.
Proof.
  intros [Hlt | ->]; [left; apply exp_increasing; assumption | right; reflexivity].
Qed.

Lemma cube_lt_1 (y : R) : 0 < y < 1 -> y ^ 3 < 1.
Proof. intros [H0 H1]. cbn. nra. Qed.

(** X12. For a fixed positive [d] the kernel rises strictly up to
    q* = 3 / (2 d) and falls strictly after it: it has one hump, which is
    what lets the bounded search of the script find the ridge. *)
Theorem f_unimodal :
  forall (d q1 q2 : R),
    0 < d -> 0 < q1 -> q1 < q2 ->
    (q2 <= q_star d -> f q1 d < f q2 d) /\
    (q_star d <= q1 -> f q2 d < f q1 d).
Proof.
  intros d q1 q2 Hd Hq1 Hlt.
  assert (Hq2 : 0 < q2) by lra.
  assert (Hstar : q_star d * (2 * d) = 3) by (unfold q_star; field; lra).
  split.
  - intro Hle.
    set (x := q1 / q2 - 1).
    assert (Hratio : 0 < q1 / q2 < 1).
    { split; [apply Rdiv_lt_0_compat; lra |].
      apply Rmult_lt_reg_r with q2; [lra |].
      unfold Rdiv. rewrite Rmult_assoc, Rinv_l by lra. lra. }
    destruct (one_plus_exp_lt_1 x) as [Hy0 Hy1]; [unfold x; lra .. |].
    pose proof (cube_lt_1 _ (conj Hy0 Hy1)) as Hy3.
    assert (Hexp : exp (2 * d * (q2 - q1)) <= exp (- x + (- x + - x))).
    { apply exp_le_mono.
      replace (2 * d * (q2 - q1)) with (2 * d * q2 * (- x))
        by (unfold x; field; lra).
      assert (2 * d * q2 <= 3) by nra.
      assert (0 < - x) by (unfold x; lra).
      nra. }
    rewrite !exp_plus in Hexp.
    assert (Hf : f q1 d
                 = f q2 d * ((1 + x) ^ 3 * exp (2 * d * (q2 - q1)))).
    { rewrite !f_closed.
      replace (- 2 * q1 * d) with (- 2 * q2 * d + 2 * d * (q2 - q1)) by ring.
      rewrite exp_plus. unfold x. field. lra. }
    rewrite Hf.
    pose proof (f_pos q2 d Hq2) as Hfp.
    assert (H1x : 0 < (1 + x) ^ 3) by (apply pow_lt; unfold x; lra).
    assert (Hprod : (1 + x) ^ 3 * exp (2 * d * (q2 - q1)) < 1).
    { apply Rle_lt_trans
        with ((1 + x) ^ 3 * (exp (- x) * (exp (- x) * exp (- x)))).
      - apply Rmult_le_compat_l; [lra | exact Hexp].
      - replace ((1 + x) ^ 3 * (exp (- x) * (exp (- x) * exp (- x))))
          with (((1 + x) * exp (- x)) ^ 3) by ring.
        exact Hy3. }
    nra.
  - intro Hge.
    set (x := q2 / q1 - 1).
    assert (Hx : 0 < x).
    { unfold x.
      assert (1 < q2 / q1); [| lra].
      apply Rmult_lt_reg_r with q1; [lra |].
      unfold Rdiv. rewrite Rmult_assoc, Rinv_l by lra. lra. }
    destruct (one_plus_exp_lt_1 x) as [Hy0 Hy1]; [lra .. |].
    pose proof (cube_lt_1 _ (conj Hy0 Hy1)) as Hy3.
    assert (Hexp : exp (- (2 * d * (q2 - q1))) <= exp (- x + (- x + - x))).
    { apply exp_le_mono.
      replace (2 * d * (q2 - q1)) with (2 * d * q1 * x)
        by (unfold x; field; lra).
      assert (3 <= 2 * d * q1) by nra.
      nra. }
    rewrite !exp_plus in Hexp.
    assert (Hf : f q2 d
                 = f q1 d * ((1 + x) ^ 3 * exp (- (2 * d * (q2 - q1))))).
    { rewrite !f_closed.
      replace (- 2 * q2 * d) with (- 2 * q1 * d + - (2 * d * (q2 - q1)))
        by ring.
      rewrite exp_plus. unfold x. field. lra. }
    rewrite Hf.
    pose proof (f_pos q1 d Hq1) as Hfp.
    assert (H1x : 0 < (1 + x) ^ 3) by (apply pow_lt; lra).
    assert (Hprod : (1 + x) ^ 3 * exp (- (2 * d * (q2 - q1))) < 1).
    { apply Rle_lt_trans
        with ((1 + x) ^ 3 * (exp (- x) * (exp (- x) * exp (- x)))).
      - apply Rmult_le_compat_l; [lra | exact Hexp].
      - replace ((1 + x) ^ 3 * (exp (- x) * (exp (- x) * exp (- x))))
          with (((1 + x) * exp (- x)) ^ 3) by ring.
        exact Hy3. }
    nra.
Qed.

Lemma f_unimodal_witness :
  f (1 / 2) 1 < f 1 1 /\ f 3 1 < f 2 1.
Proof.
  assert (H1 : 0 < 1) by lra.
  split.
  - assert (Hq : 0 < 1 / 2) by lra.
    assert (Hlt : 1 / 2 < 1) by lra.
    apply (proj1 (f_unimodal 1 (1 / 2) 1 H1 Hq Hlt)).
    unfold q_star. lra.
  - assert (Hq : 0 < 2) by lra.
    assert (Hlt : 2 < 3) by lra.
    apply (proj2 (f_unimodal 1 2 3 H1 Hq Hlt)).
    unfold q_star. lra.
Defined.

(** X13. The ridge is a straight line of slope -1 in the log-log plot of
    the script (as its legend says), and the height of the kernel along it
    is 27 / (8 d^3) exp (-3). *)
Theorem f_ridge_log_log :
  forall (d1 d2 : R),
    0 < d1 -> 0 < d2 ->
    ln d2 - ln d1 = -1 * (ln (q_star d2) - ln (q_star d1)) /\
    f (q_star d1) d1 = 27 / (8 * d1 ^ 3) * exp (- 3).
Proof.
  intros d1 d2 Hd1 Hd2.
  assert (Hq : forall d, 0 < d -> ln (q_star d) = ln (3 / 2) - ln d).
  { intros d Hd. unfold q_star.
    replace (3 / (2 * d)) with (3 / 2 * / d) by (field; lra).
    rewrite ln_mult by (try lra; apply Rinv_0_lt_compat; lra).
    rewrite ln_Rinv by lra. ring. }
  split.
  - rewrite !Hq by assumption. ring.
  - rewrite f_closed.
    replace (- 2 * q_star d1 * d1) with (- 3) by (unfold q_star; field; lra).
    unfold q_star. field. lra.
Qed.

Lemma f_ridge_log_log_witness :
  ln 2 - ln 1 = -1 * (ln (q_star 2) - ln (q_star 1)).
Proof.
  assert (H1 : 0 < 1) by lra.
  assert (H2 : 0 < 2) by lra.
  exact (proj1 (f_ridge_log_log 1 2 H1 H2)).
Defined.

(** ** The sombrero scripts: which frames and which points *)

(** X14. In sombrero_potential.py the coefficient mu falls strictly from
    frame to frame, and it is positive exactly while 5 frame < 4 n_frames:
    with the 60 frames of the script, frames 0 to 47 have mu > 0, frame 48
    has mu = 0, and the later ones mu < 0. *)
Theorem mu_of_frame_sign :
  forall (frame frame' n_frames : Z),
    (0 < n_frames)%Z ->
    (0 < mu_of_frame (F := R) frame n_frames <-> (5 * frame < 4 * n_frames)%Z)
    /\ (mu_of_frame (F := R) frame n_frames = 0
        <-> (5 * frame = 4 * n_frames)%Z)
    /\ ((frame < frame')%Z ->
        mu_of_frame (F := R) frame' n_frames
        < mu_of_frame (F := R) frame n_frames).
Proof.
  intros frame frame' n Hn.
  assert (Hn' : 0 < IZR n) by (apply IZR_lt in Hn; exact Hn).
  assert (Hmu : forall k,
            mu_of_frame (F := R) k n
            = (IZR (4 * n) - IZR (5 * k)) / (2 * IZR n)).
  { intro k. rewrite !mult_IZR. unfold mu_of_frame, dec. cbn.
    field. lra. }
  assert (Hpos : forall x, 0 < x / (2 * IZR n) <-> 0 < x).
  { intro x. split; intro Hx.
    - apply Rmult_lt_reg_r with (/ (2 * IZR n));
        [apply Rinv_0_lt_compat; lra |].
      rewrite Rmult_0_l. exact Hx.
    - apply Rdiv_lt_0_compat; lra. }
  rewrite !Hmu. repeat split.
  - intro H. apply (proj1 (Hpos _)) in H.
    apply lt_IZR, Rlt_0_minus. exact H.
  - intro H. apply (proj2 (Hpos _)), Rlt_0_minus, IZR_lt. exact H.
  - intro H. apply eq_IZR. symmetry. apply Rminus_diag_uniq.
    apply Rmult_eq_reg_r with (/ (2 * IZR n));
      [| apply Rinv_neq_0_compat; lra].
    rewrite Rmult_0_l. exact H.
  - intro H. rewrite H. unfold Rdiv. ring.
  - intro Hlt.
    assert (Hk : IZR (5 * frame) < IZR (5 * frame')) by (apply IZR_lt; lia).
    unfold Rdiv. apply Rmult_lt_compat_r; [apply Rinv_0_lt_compat; lra |].
    apply Rplus_lt_compat_l, Ropp_lt_contravar. exact Hk.
Qed.

Lemma mu_of_frame_sign_witness :
  0 < mu_of_frame (F := R) 47 60
  /\ mu_of_frame (F := R) 48 60 = 0
  /\ mu_of_frame (F := R) 49 60 < mu_of_frame (F := R) 48 60.
Proof.
  assert (Hn : (0 < 60)%Z) by lia.
  split; [| split].
  - apply (proj1 (mu_of_frame_sign 47 47 60 Hn)). lia.
  - apply (proj1 (proj2 (mu_of_frame_sign 48 48 60 Hn))). lia.
  - apply (proj2 (proj2 (mu_of_frame_sign 48 49 60 Hn))). lia.
Defined.

Lemma smooth_mask_range (V : R) : 0 < smooth_mask V < 1.
Proof.
  unfold smooth_mask. cbv zeta.
  pose proof (exp_pos ((V - 3) / (5 / 10))) as He.
  split.
  - apply Rdiv_lt_0_compat; lra.
  - apply Rmult_lt_reg_r with (1 + exp ((V - 3) / (5 / 10))); [lra |].
    unfold Rdiv at 1. rewrite Rmult_assoc, Rinv_l by lra. lra.
Qed.

Lemma smooth_mask_below_threshold (V : R) :
  smooth_mask V < 1 / 100 <-> 3 + ln 99 / 2 < V.
Proof.
  unfold smooth_mask. cbv zeta.
  set (z := (V - 3) / (5 / 10)).
  assert (Hz : z = 2 * (V - 3)) by (unfold z; field).
  pose proof (exp_pos z) as He.
  assert (H99 : exp (ln 99) = 99) by (apply exp_ln; lra).
  assert (Hiff : 1 / (1 + exp z) < 1 / 100 <-> 99 < exp z).
  { split; intro H.
    - apply Rmult_lt_compat_r with (r := 1 + exp z) in H; [| lra].
      unfold Rdiv at 1 in H. rewrite Rmult_assoc, Rinv_l in H by lra. lra.
    - apply Rmult_lt_reg_r with (1 + exp z); [lra |].
      unfold Rdiv at 1. rewrite Rmult_assoc, Rinv_l by lra. lra. }
  rewrite Hiff. split; intro H.
  - rewrite <- H99 in H. apply exp_lt_inv in H. lra.
  - rewrite <- H99. apply exp_increasing. lra.
Qed.

(** X15. The cutoff of sombrero_sonnet.py hides a grid point exactly when
    the potential there exceeds 3 + ln 99 / 2 (about 5.3): below that
    height every point is drawn, above it none. *)
Theorem update_point_hidden :
  forall (mu_sq X Y V : R),
    (V_masked V = None <-> 3 + ln 99 / 2 < V) /\
    (update_point mu_sq X Y = None
     <-> 3 + ln 99 / 2 < sombreroPotential X Y (- mu_sq) (1 / 2)).
Proof.
  assert (Hmask : forall V, V_masked V = None <-> 3 + ln 99 / 2 < V).
  { intro V. unfold V_masked.
    destruct (Rlt_dec (smooth_mask V) (1 / 100)) as [Hlt | Hge].
    - split; [intros _; apply smooth_mask_below_threshold; exact Hlt
             | reflexivity].
    - split; [discriminate |].
      intro H. exfalso. apply Hge, smooth_mask_below_threshold, H. }
  intros mu_sq X Y V. split; [apply Hmask |].
  unfold update_point. rewrite sombrero_sonnet_V_spec. apply Hmask.
Qed.

(** X16. A point that is drawn is drawn lower than the potential: its
    height is the potential times a factor in [0.01, 1), which is exactly
    one half where the potential is 3. *)
Theorem V_masked_shown :
  forall (V w : R),
    V_masked V = Some w ->
    w = V * smooth_mask V /\
    1 / 100 <= smooth_mask V < 1 /\
    Rabs w <= Rabs V /\
    smooth_mask 3 = 1 / 2.
Proof.
  intros V w Hw. unfold V_masked in Hw.
  pose proof (smooth_mask_range V) as [Hm0 Hm1].
  destruct (Rlt_dec (smooth_mask V) (1 / 100)) as [Hlt | Hge];
    [discriminate |].
  injection Hw as <-.
  split; [reflexivity |].
  split; [lra |].
  split.
  - rewrite Rabs_mult, (Rabs_pos_eq (smooth_mask V)) by lra.
    pose proof (Rabs_pos V). nra.
  - unfold smooth_mask. cbv zeta.
    replace ((3 - 3) / (5 / 10)) with 0 by field.
    rewrite exp_0. lra.
Qed.

Lemma V_masked_shown_witness :
  V_masked 3 = Some (3 * smooth_mask 3) /\ smooth_mask 3 = 1 / 2.
Proof.
  assert (Hshown : V_masked 3 = Some (3 * smooth_mask 3)).
  { unfold V_masked.
    destruct (Rlt_dec (smooth_mask 3) (1 / 100)) as [Hlt | _];
      [| reflexivity].
    exfalso. apply smooth_mask_below_threshold in Hlt.
    assert (0 < ln 99); [| lra].
    rewrite <- ln_1. apply ln_increasing; lra. }
  split; [exact Hshown |].
  exact (proj2 (proj2 (proj2 (V_masked_shown 3 _ Hshown)))).
Defined.

(** ** accessible_B.py over the reals *)

Lemma sin2_cos2_pow (x : R) : sin x ^ 2 + cos x ^ 2 = 1.
Proof.
  pose proof (sin2_cos2 x) as H. unfold Rsqr in H. cbn. lra.
Qed.

Lemma trig_le_1 (x : R) : sin x ^ 2 <= 1 /\ cos x ^ 2 <= 1.
Proof.
  pose proof (sin2_cos2_pow x).
  pose proof (pow2_ge_0 (sin x)). pose proof (pow2_ge_0 (cos x)). lra.
Qed.

(** X17. Every point of the plotted surface lies on the ellipsoid with
    semi-axes [a], [b], [c], and so inside the box of half-sides |a|, |b|,
    |c|. *)
Theorem surface_point_on_ellipsoid :
  forall (a b c u v : R),
    a <> 0 -> b <> 0 -> c <> 0 ->
    let '(x, y, z) := surface_point a b c u v in
    (x / a) ^ 2 + (y / b) ^ 2 + (z / c) ^ 2 = 1 /\
    x ^ 2 <= a ^ 2 /\ y ^ 2 <= b ^ 2 /\ z ^ 2 <= c ^ 2.
Proof.
  intros a b c u v Ha Hb Hc. unfold surface_point.
  pose proof (sin2_cos2_pow u) as Hu.
  pose proof (sin2_cos2_pow v) as Hv.
  destruct (trig_le_1 u) as [Hsu Hcu].
  destruct (trig_le_1 v) as [Hsv Hcv].
  pose proof (pow2_ge_0 (sin u)). pose proof (pow2_ge_0 (cos u)).
  pose proof (pow2_ge_0 (sin v)). pose proof (pow2_ge_0 (cos v)).
  pose proof (pow2_ge_0 a). pose proof (pow2_ge_0 b). pose proof (pow2_ge_0 c).
  split.
  - replace (a * (cos u * sin v) / a) with (cos u * sin v) by (field; lra).
    replace (b * (sin u * sin v) / b) with (sin u * sin v) by (field; lra).
    replace (c * (1 * cos v) / c) with (cos v) by (field; lra).
    replace ((cos u * sin v) ^ 2 + (sin u * sin v) ^ 2 + cos v ^ 2)
      with ((sin u ^ 2 + cos u ^ 2) * sin v ^ 2 + cos v ^ 2) by ring.
    rewrite Hu. lra.
  - repeat split.
    + replace ((a * (cos u * sin v)) ^ 2)
        with (a ^ 2 * (cos u ^ 2 * sin v ^ 2)) by ring.
      assert (cos u ^ 2 * sin v ^ 2 <= 1) by nra. nra.
    + replace ((b * (sin u * sin v)) ^ 2)
        with (b ^ 2 * (sin u ^ 2 * sin v ^ 2)) by ring.
      assert (sin u ^ 2 * sin v ^ 2 <= 1) by nra. nra.
    + replace ((c * (1 * cos v)) ^ 2) with (c ^ 2 * cos v ^ 2) by ring.
      nra.
Qed.

Lemma surface_point_on_ellipsoid_witness :
  let '(x, y, z) := surface_point (1 / 2) (1 / 2) 1 1 2 in
  (x / (1 / 2)) ^ 2 + (y / (1 / 2)) ^ 2 + (z / 1) ^ 2 = 1.
Proof.
  assert (Ha : 1 / 2 <> 0) by lra.
  assert (Hc : 1 <> 0) by lra.
  pose proof (surface_point_on_ellipsoid (1 / 2) (1 / 2) 1 1 2 Ha Ha Hc) as H.
  unfold surface_point in *. exact (proj1 H).
Defined.

(** X18. The contour rings lie on the same ellipsoid enlarged by
    [scale_factor], at the constant heights
    +/- scale_factor c cos theta; with equal horizontal semi-axes each ring
    is a circle of radius |scale_factor a sin theta|. *)
Theorem contour_point_on_scaled_ellipsoid :
  forall (scale_factor a b c theta u : R),
    a <> 0 -> b <> 0 -> c <> 0 ->
    let '(x, y, z) := contour_point scale_factor a b c theta u in
    let '(x', y', z') := contour_point_neg scale_factor a b c theta u in
    (x / a) ^ 2 + (y / b) ^ 2 + (z / c) ^ 2 = scale_factor ^ 2 /\
    (x' / a) ^ 2 + (y' / b) ^ 2 + (z' / c) ^ 2 = scale_factor ^ 2 /\
    z = scale_factor * c * cos theta /\ z' = - z /\ x' = x /\ y' = y /\
    (a = b -> x ^ 2 + y ^ 2 = (scale_factor * a * sin theta) ^ 2).
Proof.
  intros s a b c theta u Ha Hb Hc.
  unfold contour_point_neg, contour_point.
  pose proof (sin2_cos2_pow u) as Hu.
  pose proof (sin2_cos2_pow theta) as Ht.
  assert (Hsum :
    (s * a * cos u * sin theta / a) ^ 2 + (s * b * sin u * sin theta / b) ^ 2
    + (s * c * cos theta * 1 / c) ^ 2 = s ^ 2).
  { replace (s * a * cos u * sin theta / a) with (s * cos u * sin theta)
      by (field; lra).
    replace (s * b * sin u * sin theta / b) with (s * sin u * sin theta)
      by (field; lra).
    replace (s * c * cos theta * 1 / c) with (s * cos theta) by (field; lra).
    replace ((s * cos u * sin theta) ^ 2 + (s * sin u * sin theta) ^ 2
             + (s * cos theta) ^ 2)
      with (s ^ 2 * ((sin u ^ 2 + cos u ^ 2) * sin theta ^ 2 + cos theta ^ 2))
      by ring.
    rewrite Hu. replace (1 * sin theta ^ 2 + cos theta ^ 2) with 1 by lra.
    ring. }
  split; [exact Hsum |].
  split.
  { rewrite <- Hsum. unfold Rdiv. ring. }
  split; [ring |].
  split; [reflexivity |].
  split; [reflexivity |].
  split; [reflexivity |].
  intros <-.
  replace ((s * a * cos u * sin theta) ^ 2 + (s * a * sin u * sin theta) ^ 2)
    with ((s * a * sin theta) ^ 2 * (sin u ^ 2 + cos u ^ 2)) by ring.
  rewrite Hu. ring.
Qed.

Lemma contour_point_on_scaled_ellipsoid_witness :
  let '(x, y, z) :=
    contour_point (101 / 100) (1 / 2) (1 / 2) 1 (radians (547 / 10)) 1 in
  (x / (1 / 2)) ^ 2 + (y / (1 / 2)) ^ 2 + (z / 1) ^ 2 = (101 / 100) ^ 2.
Proof.
  assert (Ha : 1 / 2 <> 0) by lra.
  assert (Hc : 1 <> 0) by lra.
  pose proof (contour_point_on_scaled_ellipsoid
                (101 / 100) (1 / 2) (1 / 2) 1 (radians (547 / 10)) 1
                Ha Ha Hc) as H.
  unfold contour_point_neg, contour_point in *. exact (proj1 H).
Defined.

(** ** plot_T1_decay_80K_2L.py: more on the fit *)

(** X19. When the fit script raises.  On a file with no row or one row it
    is the IndexError of line 26, before any maximum is taken and before
    [curve_fit] is called.  On two rows or more the initial guess is always
    obtained, and the script raises only what [curve_fit] raises, or the
    ValueError of unpacking an answer that does not have three parameters.
    Nothing else makes it fail. *)
Theorem fit_T1_raises_iff :
  forall (F : Type) (arith : Arith F) (trans : Transcendental F)
         (curve_fit : curve_fit_t F) (data : SampleSeries F)
         (e : py_exception),
    fit_T1 curve_fit data = Raised e <->
    ((length data < 2)%nat
     /\ e = ArrayIndexError "too many indices for array")
    \/ ((2 <= length data)%nat /\
        exists p0,
          initial_guess (to_time_us (column_time_ms data))
                        (column_signal data) = Returned p0 /\
          let answer :=
            curve_fit stretched_exp (to_time_us (column_time_ms data))
                      (column_signal data) (column_error data) p0 true
                      10000%Z in
          (answer = Raised e
           \/ exists popt pcov,
                answer = Returned (popt, pcov)
                /\ length popt <> 3%nat
                /\ e = ValueError "wrong number of values to unpack")).
Proof.
  intros F arith trans curve_fit data e.
  destruct (Nat.lt_ge_cases (length data) 2) as [Hshort | Hlong].
  - rewrite (fit_T1_short curve_fit data Hshort). split.
    + intro H. injection H as <-. left. split; [exact Hshort | reflexivity].
    + intros [[_ ->] | [Hlen _]]; [reflexivity | lia].
  - assert (Hg : exists p0,
               initial_guess (to_time_us (column_time_ms data))
                             (column_signal data) = Returned p0).
    { destruct data as [| [[t0 s0] e0] rest]; [cbn in Hlong; lia |].
      eexists. apply initial_guess_cons. }
    destruct Hg as [p0 Hg].
    rewrite (fit_T1_two_rows curve_fit data Hlong).
    rewrite (fit_stretched_exp_call curve_fit _ _ _ _ Hg).
    split.
    + intro H. right. split; [exact Hlong |]. exists p0.
      split; [exact Hg |]. cbv zeta.
      destruct (curve_fit _ _ _ _ _ _ _) as [[popt pcov] | e'].
      * right. exists popt, pcov. split; [reflexivity |].
        cbn in H.
        destruct popt as [| A [| tau [| gamma [| extra more]]]];
          cbn in H |- *; try discriminate H;
          injection H as <-; split; (discriminate || reflexivity).
      * left. cbn in H. injection H as <-. reflexivity.
    + intros [[Hlen _] | (_ & p0' & Hg' & Hans)]; [lia |].
      rewrite Hg in Hg'. injection Hg' as <-. cbv zeta in Hans.
      destruct Hans as [-> | (popt & pcov & -> & Hlen & ->)];
        [reflexivity |].
      cbn.
      destruct popt as [| A [| tau [| gamma [| extra more]]]];
        cbn in Hlen |- *; try reflexivity.
      contradiction.
Qed.

Lemma fit_T1_raises_iff_witness :
  fit_T1 (trans := Transcendental_binary64 libm_nan)
         rank_deficient_curve_fit [ (lit 0, lit 0, lit 1) ]
  = Raised (ArrayIndexError "too many indices for array").
Proof.
  apply (proj2 (fit_T1_raises_iff float Arith_binary64
                  (Transcendental_binary64 libm_nan)
                  rank_deficient_curve_fit [ (lit 0, lit 0, lit 1) ] _)).
  left. split; [cbn; lia | reflexivity].
Defined.

Lemma fold_left_Rmax_perm (x x' : R) (l l' : list R) :
  Permutation (x :: l) (x' :: l') ->
  fold_left Rmax l x = fold_left Rmax l' x'.
Proof.
  intro Hperm.
  destruct (fold_left_Rmax_greatest l x) as [Hin Hub].
  destruct (fold_left_Rmax_greatest l' x') as [Hin' Hub'].
  apply Rle_antisym.
  - apply Hub'. apply (Permutation_in _ Hperm). exact Hin.
  - apply Hub. apply (Permutation_in _ (Permutation_sym Hperm)). exact Hin'.
Qed.

Lemma fold_left_Rmin_perm (x x' : R) (l l' : list R) :
  Permutation (x :: l) (x' :: l') ->
  fold_left Rmin l x = fold_left Rmin l' x'.
Proof.
  intro Hperm.
  destruct (fold_left_Rmin_least l x) as [Hin Hlb].
  destruct (fold_left_Rmin_least l' x') as [Hin' Hlb'].
  apply Rle_antisym.
  - apply Hlb. apply (Permutation_in _ (Permutation_sym Hperm)). exact Hin'.
  - apply Hlb'. apply (Permutation_in _ Hperm). exact Hin.
Qed.

(** X20. Over the reals the initial guess does not depend on the order of
    the rows: a reordered file starts the fit from the same point. *)
Theorem initial_guess_order_independent :
  forall (data data' : SampleSeries R),
    Permutation data data' ->
    initial_guess (to_time_us (column_time_ms data)) (column_signal data)
    = initial_guess (to_time_us (column_time_ms data'))
                    (column_signal data').
Proof.
  intros data data' Hperm.
  assert (Ht : Permutation (to_time_us (column_time_ms data))
                           (to_time_us (column_time_ms data')))
    by (unfold to_time_us, column_time_ms; do 2 apply Permutation_map;
        exact Hperm).
  assert (Hs : Permutation (column_signal data) (column_signal data'))
    by (unfold column_signal; apply Permutation_map; exact Hperm).
  destruct data as [| r rest]; destruct data' as [| r' rest'].
  - reflexivity.
  - apply Permutation_nil in Hperm. discriminate Hperm.
  - apply Permutation_sym, Permutation_nil in Hperm. discriminate Hperm.
  - cbn [column_time_ms column_signal to_time_us map] in *.
    rewrite !initial_guess_cons.
    pose proof (fold_left_Rmax_perm _ _ _ _ Hs) as EA.
    pose proof (fold_left_Rmax_perm _ _ _ _ Ht) as Emax.
    pose proof (fold_left_Rmin_perm _ _ _ _ Ht) as Emin.
    cbn in EA, Emax, Emin |- *.
    rewrite EA, Emax, Emin. reflexivity.
Qed.

Lemma initial_guess_order_independent_witness :
  initial_guess (to_time_us (column_time_ms decay_series))
                (column_signal decay_series)
  = initial_guess (to_time_us (column_time_ms (rev decay_series)))
                  (column_signal (rev decay_series)).
Proof.
  apply (initial_guess_order_independent decay_series (rev decay_series)).
  apply Permutation_rev.
Defined.

Lemma Rpower_np_0 (y : R) : y <> 0 -> Rpower_np 0 y = 0.
Proof.
  intro Hy. unfold Rpower_np.
  destruct (Req_dec_T 0 0) as [_ | N]; [| contradiction N; reflexivity].
  destruct (Req_dec_T y 0) as [E | _]; [contradiction | reflexivity].
Qed.

Lemma Rpower_np_pos (x y : R) : 0 < x -> Rpower_np x y = Rpower x y.
Proof.
  intro Hx. unfold Rpower_np.
  destruct (Req_dec_T x 0) as [E | _]; [lra | reflexivity].
Qed.

Lemma Rpower_np_increasing (x1 x2 y : R) :
  0 < y -> 0 <= x1 -> x1 < x2 -> Rpower_np x1 y < Rpower_np x2 y.
Proof.
  intros Hy [Hx1 | <-] Hlt.
  - rewrite !Rpower_np_pos by lra. apply Rlt_Rpower_l; lra.
  - rewrite Rpower_np_0 by lra. rewrite Rpower_np_pos by lra.
    unfold Rpower. apply exp_pos.
Qed.

(** X21. What the parameters of the model function mean: the value at time
    0 is [A]; the value at [t = tau] is [A / e] for every exponent gamma;
    and with gamma = 1 the model is the plain exponential decay. *)
Theorem stretched_exp_landmarks :
  forall (A tau gamma : R),
    0 < tau -> 0 < gamma ->
    stretched_exp 0 A tau gamma = A /\
    stretched_exp tau A tau gamma = A * exp (- 1) /\
    (forall t, 0 <= t -> stretched_exp t A tau 1 = A * exp (- (t / tau))).
Proof.
  intros A tau gamma Htau Hgamma. unfold stretched_exp. cbn.
  split; [| split].
  - replace (0 / tau) with 0 by (field; lra).
    rewrite Rpower_np_0 by lra. rewrite Ropp_0, exp_0. ring.
  - replace (tau / tau) with 1 by (field; lra).
    rewrite Rpower_np_pos by lra.
    unfold Rpower. rewrite ln_1, Rmult_0_r, exp_0. reflexivity.
  - intros t [Ht | <-].
    + assert (0 < t / tau) by (apply Rdiv_lt_0_compat; assumption).
      rewrite Rpower_np_pos, Rpower_1 by assumption. reflexivity.
    + replace (0 / tau) with 0 by (field; lra).
      rewrite Rpower_np_0 by lra. reflexivity.
Qed.

Lemma stretched_exp_landmarks_witness :
  stretched_exp 50 2 50 (8 / 10) = 2 * exp (- 1).
Proof.
  assert (Htau : 0 < 50) by lra.
  assert (Hgamma : 0 < 8 / 10) by lra.
  exact (proj1 (proj2 (stretched_exp_landmarks 2 50 (8 / 10) Htau Hgamma))).
Defined.

(** X22. For a positive amplitude, decay time and exponent the model falls
    strictly with time from its value [A] at time 0 and stays positive. *)
Theorem stretched_exp_decays :
  forall (A tau gamma t1 t2 : R),
    0 < A -> 0 < tau -> 0 < gamma ->
    0 <= t1 -> t1 < t2 ->
    0 < stretched_exp t2 A tau gamma
    /\ stretched_exp t2 A tau gamma < stretched_exp t1 A tau gamma
    /\ stretched_exp t1 A tau gamma <= A.
Proof.
  intros A tau gamma t1 t2 HA Htau Hgamma Ht1 Hlt.
  unfold stretched_exp. cbn.
  assert (Hdiv : forall t, t / tau = t * / tau) by reflexivity.
  assert (Hinv : 0 < / tau) by (apply Rinv_0_lt_compat; assumption).
  assert (Hx1 : 0 <= t1 / tau) by (rewrite Hdiv; nra).
  assert (Hx12 : t1 / tau < t2 / tau) by (rewrite !Hdiv; nra).
  pose proof (Rpower_np_increasing _ _ gamma Hgamma Hx1 Hx12) as Hpow.
  assert (Hpow0 : 0 <= Rpower_np (t1 / tau) gamma).
  { destruct Hx1 as [Hpos | <-].
    - rewrite Rpower_np_pos by assumption. left. unfold Rpower. apply exp_pos.
    - rewrite Rpower_np_0 by lra. lra. }
  split; [| split].
  - apply Rmult_lt_0_compat; [assumption | apply exp_pos].
  - apply Rmult_lt_compat_l; [assumption |].
    apply exp_increasing. lra.
  - rewrite <- (Rmult_1_r A) at 2.
    apply Rmult_le_compat_l; [lra |].
    rewrite <- exp_0. apply exp_le_mono. lra.
Qed.

Lemma stretched_exp_decays_witness :
  stretched_exp 100 2 50 (8 / 10) < stretched_exp 10 2 50 (8 / 10).
Proof.
  refine (proj1 (proj2 (stretched_exp_decays 2 50 (8 / 10) 10 100
                          _ _ _ _ _))); lra.
Defined.

(** X23. The legend never carries the fitted parameters: with
    [SHOW_PARAMS_DEFAULT = False] the flag [--hide-params] has nothing left
    to hide, and the label is the equation alone, set or not. *)
Theorem fit_label_is_equation :
  forall (eq_legend params_legend : string) (hide_params : bool),
    show_params hide_params = false /\
    fit_label eq_legend params_legend hide_params = eq_legend.
Proof.
  intros eq_legend params_legend hide_params.
  destruct hide_params; split; reflexivity.
Qed.

Lemma fold_left_Rmax_scale (k : R) (l : list R) :
  0 <= k ->
  forall x,
    fold_left Rmax (map (fun t => t * k) l) (x * k) = fold_left Rmax l x * k.
Proof.
  intro Hk. induction l as [| a l IH]; intro x; cbn [map fold_left].
  - reflexivity.
  - rewrite <- IH. f_equal.
    rewrite (Rmult_comm x k), (Rmult_comm a k), (Rmult_comm (Rmax x a) k).
    apply RmaxRmult. exact Hk.
Qed.

Lemma Rmin_scale (k x a : R) :
  0 <= k -> Rmin (k * x) (k * a) = k * Rmin x a.
Proof.
  intro Hk. unfold Rmin.
  destruct (Rle_dec (k * x) (k * a)) as [H1 | H1];
    destruct (Rle_dec x a) as [H2 | H2]; try reflexivity.
  - apply Rle_antisym; [exact H1 | nra].
  - exfalso. apply H1. nra.
Qed.

Lemma fold_left_Rmin_scale (k : R) (l : list R) :
  0 <= k ->
  forall x,
    fold_left Rmin (map (fun t => t * k) l) (x * k) = fold_left Rmin l x * k.
Proof.
  intro Hk. induction l as [| a l IH]; intro x; cbn [map fold_left].
  - reflexivity.
  - rewrite <- IH. f_equal.
    rewrite (Rmult_comm x k), (Rmult_comm a k), (Rmult_comm (Rmin x a) k).
    apply Rmin_scale. exact Hk.
Qed.

(** X24. In terms of the file, whose times are in milliseconds: the
    starting decay time is 500 times the span of the times in the file
    (half the span, in microseconds), and the starting amplitude is the
    greatest signal. *)
Theorem initial_guess_from_milliseconds :
  forall (data : SampleSeries R) (t_max t_min A0 : R),
    ndarray_max (column_time_ms data) = Returned t_max ->
    ndarray_min (column_time_ms data) = Returned t_min ->
    ndarray_max (column_signal data) = Returned A0 ->
    initial_guess (to_time_us (column_time_ms data)) (column_signal data)
    = Returned [A0; 500 * (t_max - t_min); 1].
Proof.
  intros data t_max t_min A0 Hmax Hmin HA.
  destruct data as [| [[t0 s0] e0] rest]; [discriminate Hmax |].
  cbn in Hmax, Hmin, HA.
  injection Hmax as <-. injection Hmin as <-. injection HA as <-.
  cbn [column_time_ms column_signal to_time_us map fst snd].
  rewrite initial_guess_cons. cbn.
  pose proof (fold_left_Rmax_scale 1000
                (map (fun row : R * R * R => fst (fst row)) rest)
                ltac:(lra) t0) as Emax.
  pose proof (fold_left_Rmin_scale 1000
                (map (fun row : R * R * R => fst (fst row)) rest)
                ltac:(lra) t0) as Emin.
  rewrite Emax, Emin. do 2 f_equal. f_equal. field.
Qed.

Lemma initial_guess_from_milliseconds_witness :
  initial_guess (to_time_us (column_time_ms decay_series))
                (column_signal decay_series)
  = Returned [2; 500 * (3 - 1); 1].
Proof.
  apply (initial_guess_from_milliseconds decay_series 3 1 2);
    cbn; unfold Rmax, Rmin;
    repeat (destruct (Rle_dec _ _); try lra); reflexivity.
Defined.

(** ** double_playback.py *)

Section DoublePlaybackFacts.
Context {Img : Type}.
Local Open Scope Z_scope.

Lemma halved_duration_ge_1 (frame : gif_frame Img) :
  1 <= halved_duration frame.
Proof. unfold halved_duration. cbv zeta. lia. Qed.

Lemma halved_duration_half (frame : gif_frame Img) :
  2 <= frame_duration frame ->
  2 * halved_duration frame <= frame_duration frame
  <= 2 * halved_duration frame + 1.
Proof.
  unfold halved_duration, frame_duration. cbv zeta.
  set (x := dict_get "duration" 100 (info frame)).
  pose proof (Z.div_mod x 2 ltac:(lia)) as Hdm.
  pose proof (Z.mod_pos_bound x 2 ltac:(lia)) as Hmod.
  intro Hx. lia.
Qed.

Lemma dict_get_absent (key : string) (default : Z) (d : list (string * Z)) :
  (forall v, ~ In (key, v) d) -> dict_get key default d = default.
Proof.
  induction d as [| [k v] rest IH]; intro Habs; cbn.
  - reflexivity.
  - destruct (String.eqb k key) eqn:Ek.
    + apply String.eqb_eq in Ek. subst k.
      exfalso. apply (Habs v). left. reflexivity.
    + apply IH. intros v' Hin. apply (Habs v'). right. exact Hin.
Qed.

Lemma dict_get_present (key : string) (default v : Z)
    (d : list (string * Z)) :
  NoDup (map fst d) -> In (key, v) d -> dict_get key default d = v.
Proof.
  induction d as [| [k w] rest IH]; intros Hnd Hin; cbn.
  - contradiction.
  - inversion Hnd as [| k' ks Hnotin Hnd']; subst.
    destruct (String.eqb k key) eqn:Ek.
    + apply String.eqb_eq in Ek. subst k.
      destruct Hin as [E | Hin]; [congruence |].
      exfalso. apply Hnotin.
      change key with (fst (key, v)). apply in_map. exact Hin.
    + destruct Hin as [E | Hin].
      * injection E as -> ->. rewrite String.eqb_refl in Ek. discriminate.
      * apply IH; assumption.
Qed.
End DoublePlaybackFacts.

(** X25. [double_gif_speed] fails, with IndexError, exactly on an input
    without frames.  Otherwise it saves every frame of the input, in order,
    with one duration per frame, each at least 1 ms, looping for ever. *)
Theorem double_gif_speed_outcome :
  forall (Img : Type) (gif : list (gif_frame Img)),
    (double_gif_speed gif = IndexError "list index out of range"
     <-> gif = [])
    /\ (forall call,
          double_gif_speed gif = Saved call ->
          saved_first call :: append_images call = gif
          /\ length (duration call) = length gif
          /\ Forall (fun d => (1 <= d)%Z) (duration call)
          /\ save_all call = true
          /\ loop call = 0%Z).
Proof.
  intros Img gif. destruct gif as [| first rest]; cbn.
  - split; [split; reflexivity | discriminate].
  - split; [split; discriminate |].
    intros call Hcall. injection Hcall as <-. cbn. rewrite map_id.
    split; [reflexivity |].
    split; [rewrite length_map; reflexivity |].
    split; [| split; reflexivity].
    constructor; [apply halved_duration_ge_1 |].
    apply Forall_forall. intros d Hd.
    apply in_map_iff in Hd. destruct Hd as (fr & <- & _).
    apply halved_duration_ge_1.
Qed.

(** X26. The duration written for a frame: half the duration read, rounded
    down, when that is 2 ms or more, and 1 ms when it is 3 ms or less, also
    when it is zero or negative.  It is never longer than a duration of
    1 ms or more that was read. *)
Theorem halved_duration_bounds :
  forall (Img : Type) (frame : gif_frame Img),
    let d := frame_duration frame in
    let h := halved_duration frame in
    (1 <= h
     /\ (2 <= d -> h = d / 2 /\ 2 * h <= d <= 2 * h + 1)
     /\ (d <= 3 -> h = 1)
     /\ (1 <= d -> h <= d))%Z.
Proof.
  intros Img frame d h. unfold h, halved_duration, d, frame_duration.
  cbv zeta.
  set (x := dict_get "duration" 100 (info frame)).
  pose proof (Z.div_mod x 2 ltac:(lia)) as Hdm.
  pose proof (Z.mod_pos_bound x 2 ltac:(lia)) as Hmod.
  repeat split; intros; lia.
Qed.

(** X27. A frame whose [info] has no duration is written with 50 ms, half
    the default of 100 ms; a frame whose [info] has the duration [v] is
    written with [max 1 (v // 2)]. *)
Theorem halved_duration_of_info :
  forall (Img : Type) (frame : gif_frame Img),
    NoDup (map fst (info frame)) ->
    ((forall v, ~ In ("duration"%string, v) (info frame)) ->
     halved_duration frame = 50%Z)
    /\ (forall v, In ("duration"%string, v) (info frame) ->
                  halved_duration frame = Z.max 1 (v / 2)).
Proof.
  intros Img frame Hnd. unfold halved_duration. cbv zeta. split.
  - intro Habs. rewrite dict_get_absent by exact Habs. reflexivity.
  - intros v Hin.
    rewrite (dict_get_present _ _ v _ Hnd Hin). reflexivity.
Qed.

Lemma halved_duration_of_info_witness :
  halved_duration {| pixels := tt; info := [("loop"%string, 0%Z)] |} = 50%Z
  /\ halved_duration
       {| pixels := tt;
          info := [("loop"%string, 0%Z); ("duration"%string, 33%Z)] |}
     = 16%Z.
Proof.
  split.
  - refine (proj1 (halved_duration_of_info unit
                     {| pixels := tt; info := [("loop"%string, 0%Z)] |} _) _).
    + cbn. repeat constructor. intros [].
    + intros v [E | []]. discriminate E.
  - refine (proj2 (halved_duration_of_info unit
                     {| pixels := tt;
                        info := [("loop"%string, 0%Z);
                                 ("duration"%string, 33%Z)] |} _) 33%Z _).
    + cbn. repeat constructor; cbn; intuition discriminate.
    + right. left. reflexivity.
Defined.

Lemma playing_time_halved (Img : Type) (gif : list (gif_frame Img)) :
  Forall (fun frame => (2 <= frame_duration frame)%Z) gif ->
  (playing_time (map frame_duration gif) - Z.of_nat (length gif)
   <= 2 * playing_time (map halved_duration gif)
   <= playing_time (map frame_duration gif))%Z.
Proof.
  induction 1 as [| frame rest Hd _ IH]; cbn [map playing_time fold_right length].
  - cbn. lia.
  - fold (playing_time (map frame_duration rest)).
    fold (playing_time (map (@halved_duration Img) rest)).
    pose proof (halved_duration_half frame Hd) as Hb.
    rewrite Nat2Z.inj_succ. lia.
Qed.

Lemma playing_time_halved_even (Img : Type) (gif : list (gif_frame Img)) :
  Forall (fun frame => (2 <= frame_duration frame)%Z) gif ->
  Forall (fun frame => Z.even (frame_duration frame) = true) gif ->
  (2 * playing_time (map halved_duration gif)
   = playing_time (map frame_duration gif))%Z.
Proof.
  induction 1 as [| frame rest Hd _ IH]; intro Heven;
    cbn [map playing_time fold_right].
  - reflexivity.
  - fold (playing_time (map frame_duration rest)).
    fold (playing_time (map (@halved_duration Img) rest)).
    inversion Heven as [| fr rs He Hrest]; subst.
    specialize (IH Hrest).
    assert (Hh : (2 * halved_duration frame = frame_duration frame)%Z).
    { unfold halved_duration. cbv zeta. fold (frame_duration frame).
      apply Z.even_spec in He. destruct He as [k Hk].
      rewrite Hk in *. rewrite (Z.mul_comm 2 k), Z.div_mul by lia. lia. }
    lia.
Qed.

(** X28. When every frame has a duration of 2 ms or more, one loop of the
    saved GIF plays in half the time of the input, up to half a millisecond
    per frame lost to rounding: twice the new playing time lies between the
    old playing time minus the number of frames and the old playing time,
    and equals it when every duration is even. *)
Theorem double_gif_speed_playing_time :
  forall (Img : Type) (gif : list (gif_frame Img)) (call : save_call Img),
    Forall (fun frame => (2 <= frame_duration frame)%Z) gif ->
    double_gif_speed gif = Saved call ->
    let old := playing_time (map frame_duration gif) in
    let new := playing_time (duration call) in
    (old - Z.of_nat (length gif) <= 2 * new <= old)%Z
    /\ (Forall (fun frame => Z.even (frame_duration frame) = true) gif ->
        (2 * new = old)%Z).
Proof.
  intros Img gif call Hd Hcall old new.
  assert (Hdur : duration call = map halved_duration gif).
  { destruct gif as [| first rest]; [discriminate Hcall |].
    cbn in Hcall. injection Hcall as <-. reflexivity. }
  unfold new, old. rewrite Hdur. split.
  - apply playing_time_halved. exact Hd.
  - intro Heven. apply playing_time_halved_even; assumption.
Qed.

Lemma double_gif_speed_playing_time_witness :
  exists call,
    double_gif_speed
      [ {| pixels := tt; info := [("duration"%string, 40%Z)] |};
        {| pixels := tt; info := [("duration"%string, 33%Z)] |} ]
    = Saved call
    /\ (71 <= 2 * playing_time (duration call) <= 73)%Z.
Proof.
  eexists. split; [reflexivity |].
  refine (proj1 (double_gif_speed_playing_time unit
                   [ {| pixels := tt; info := [("duration"%string, 40%Z)] |};
                     {| pixels := tt; info := [("duration"%string, 33%Z)] |} ]
                   _ _ eq_refl)).
  repeat constructor; cbn; lia.
Defined.

(** ** conventional_readout.py over the reals: comparing systems *)

(** X29. Of two systems with the same readout time the faster one, at every
    evolution time and target, is the one with the larger product
    contrast^2 * count rate: that product orders the curves of the plot
    (4500, 18000 and 9600 per second for its three systems). *)
Theorem calculate_time_to_snr_figure_of_merit :
  forall (rateA cA rateB cB ro evo snr : R),
    0 < rateA -> 0 < rateB -> cA <> 0 -> cB <> 0 ->
    0 < ro -> 0 <= evo -> snr <> 0 ->
    (calculate_time_to_snr
       {| photon_count_rate := rateA; readout_time := ro; contrast := cA |}
       evo snr
     < calculate_time_to_snr
         {| photon_count_rate := rateB; readout_time := ro; contrast := cB |}
         evo snr
     <-> cB ^ 2 * rateB < cA ^ 2 * rateA).
Proof.
  intros rateA cA rateB cB ro evo snr HrA HrB HcA HcB Hro Hevo Hsnr.
  rewrite !calculate_time_to_snr_closed by assumption.
  assert (HA : 0 < cA ^ 2 * rateA).
  { apply Rmult_lt_0_compat; [| lra]. destruct (Rdichotomy _ _ HcA); nra. }
  assert (HB : 0 < cB ^ 2 * rateB).
  { apply Rmult_lt_0_compat; [| lra]. destruct (Rdichotomy _ _ HcB); nra. }
  assert (HK : 0 < 2 * snr ^ 2 * (evo + ro) / ro).
  { apply Rdiv_lt_0_compat; [| lra].
    apply Rmult_lt_0_compat; [| lra]. destruct (Rdichotomy _ _ Hsnr); nra. }
  replace (2 * snr ^ 2 * (evo + ro) / (cA ^ 2 * (rateA * ro)))
    with (2 * snr ^ 2 * (evo + ro) / ro * / (cA ^ 2 * rateA))
    by (field; repeat split; lra).
  replace (2 * snr ^ 2 * (evo + ro) / (cB ^ 2 * (rateB * ro)))
    with (2 * snr ^ 2 * (evo + ro) / ro * / (cB ^ 2 * rateB))
    by (field; repeat split; lra).
  set (K := 2 * snr ^ 2 * (evo + ro) / ro) in *. clearbody K.
  set (a := cA ^ 2 * rateA) in *. set (b := cB ^ 2 * rateB) in *.
  clearbody a b.
  split.
  - intro Hlt.
    apply Rmult_lt_reg_l in Hlt; [| exact HK].
    destruct (Rlt_or_le b a) as [Hba | Hab]; [exact Hba | exfalso].
    destruct Hab as [Hab | ->]; [| lra].
    pose proof (Rinv_lt_contravar a b ltac:(nra) Hab). lra.
  - intro Hba.
    apply Rmult_lt_compat_l; [exact HK |].
    apply Rinv_lt_contravar; [nra | exact Hba].
Qed.

Lemma calculate_time_to_snr_figure_of_merit_witness :
  calculate_time_to_snr
    {| photon_count_rate := 1500000; readout_time := 1 / 1000000;
       contrast := 8 / 100 |} (1 / 100) 5
  < calculate_time_to_snr
      {| photon_count_rate := 50000; readout_time := 1 / 1000000;
         contrast := 3 / 10 |} (1 / 100) 5.
Proof.
  refine (proj2 (calculate_time_to_snr_figure_of_merit
                   1500000 (8 / 100) 50000 (3 / 10) (1 / 1000000) (1 / 100) 5
                   _ _ _ _ _ _ _) _); lra.
Defined.

(** * Where float64 departs from the reals *)

(** At the reals the generic formula is the specification's. *)
Lemma timeToTargetSNR_formula_R
    (params : AcquisitionParams R) (evolutionTime targetSNR : R) :
  timeToTargetSNR_formula params evolutionTime targetSNR
  = timeToTargetSNR_spec params evolutionTime targetSNR.
Proof.
  unfold timeToTargetSNR_formula, timeToTargetSNR_spec. cbn. ring.
Qed.

(** C1, as first stated, fails in float64.  At contrast 1e-200, inside
    (0, 1], the number of readouts overflows and the code returns NaN
    (0 * inf + inf) where the formula gives +inf; and at the second of the
    script's evolution times the sum evolution_time * n + n * readout_time
    of the code and the product n * (evolution_time + readout_time) of the
    formula round to different doubles. *)
Lemma calculate_time_to_snr_binary64_not_formula :
  PrimFloat.ltb (lit 0) double_1e_200 = true
  /\ PrimFloat.leb double_1e_200 (lit 1) = true
  /\ is_nan64 (calculate_time_to_snr (first_system double_1e_200)
                 (lit 0) (lit 5)) = true
  /\ timeToTargetSNR_formula (first_system double_1e_200) (lit 0) (lit 5)
     = PrimFloat.infinity
  /\ PrimFloat.ltb (lit 0) evolution_time_1 = true
  /\ PrimFloat.eqb
       (calculate_time_to_snr (first_system (dec 30 100))
          evolution_time_1 (lit 5))
       (timeToTargetSNR_formula (first_system (dec 30 100))
          evolution_time_1 (lit 5))
     = false.
Proof. repeat split; vm_compute; reflexivity. Qed.

(** C7, as first stated, fails in float64.  The contrasts 0.75 and the next
    double above it give the same time, not a smaller one; at contrast
    1e-200 the result is NaN, neither positive nor finite; and at a count
    rate of 1e308 with a readout time of 7 the photon number overflows and
    the result is 0, not positive. *)
Lemma calculate_time_to_snr_binary64_not_decreasing :
  PrimFloat.ltb (lit 0) (dec 3 4) = true
  /\ PrimFloat.ltb (dec 3 4) (PrimFloat.next_up (dec 3 4)) = true
  /\ PrimFloat.leb (PrimFloat.next_up (dec 3 4)) (lit 1) = true
  /\ PrimFloat.ltb
       (calculate_time_to_snr (first_system (PrimFloat.next_up (dec 3 4)))
          (lit 0) (lit 5))
       (calculate_time_to_snr (first_system (dec 3 4)) (lit 0) (lit 5))
     = false
  /\ is_nan64 (calculate_time_to_snr (first_system double_1e_200)
                 (lit 0) (lit 5)) = true
  /\ PrimFloat.ltb (lit 0)
       (calculate_time_to_snr
          {| photon_count_rate := double_1e308; readout_time := lit 7;
             contrast := lit 1 |} (lit 0) (lit 5))
     = false.
Proof. repeat split; vm_compute; reflexivity. Qed.

(** C10, as first stated, fails in float64.  At evolution time 0 the
    readout times 1e-6 and 7 give different doubles, and the readout time
    1e-312 gives NaN. *)
Lemma calculate_time_to_snr_binary64_depends_on_readout_time :
  PrimFloat.eqb
    (calculate_time_to_snr
       {| photon_count_rate := lit 50000; readout_time := dec 1 1000000;
          contrast := dec 30 100 |} (lit 0) (lit 5))
    (calculate_time_to_snr
       {| photon_count_rate := lit 50000; readout_time := lit 7;
          contrast := dec 30 100 |} (lit 0) (lit 5))
  = false
  /\ PrimFloat.ltb (lit 0) double_1e_312 = true
  /\ is_nan64
       (calculate_time_to_snr
          {| photon_count_rate := lit 50000; readout_time := double_1e_312;
             contrast := dec 30 100 |} (lit 0) (lit 5))
     = true.
Proof. repeat split; vm_compute; reflexivity. Qed.

(** C4, as first stated, fails in float64.  At the positive width 1e-200
    the square of sigma underflows to 0, the exponent at the centre is
    -0 / 0, a NaN, and with any C library whose [log 2] is the nearest
    double and whose [exp] keeps a NaN the value at the centre is NaN, not
    the amplitude. *)
Lemma delta_function_binary64_nan_at_centre :
  PrimFloat.ltb (lit 0) double_1e_200 = true
  /\ forall m : libm,
       libm_log m (lit 2) = ln2_binary64 ->
       is_nan64 (libm_exp m PrimFloat.nan) = true ->
       is_nan64 (delta_function (trans := Transcendental_binary64 m)
                   (lit 1) (lit 1) double_1e_200 (lit 1)) = true.
Proof.
  split; [vm_compute; reflexivity |].
  intros m Hlog Hexp.
  unfold delta_function. cbn -[double_1e_200 ln2_binary64].
  cbn in Hlog. rewrite Hlog.
  match goal with
  | |- is_nan64 (PrimFloat.mul _ (libm_exp m ?a)) = true =>
      replace a with PrimFloat.nan by (vm_compute; reflexivity)
  end.
  unfold is_nan64. rewrite mul_nan_r; [reflexivity |].
  apply nan_class. exact Hexp.
Qed.
